(** * Signalling relay of the video-call server: [src/ws/stream.js]

    A shallow embedding of the WebSocket stream handler (rate limiter,
    payload validators, room admission and relay handlers) together with the
    properties of the design document that concern it.

    Conventions of the embedding:
    - payloads are JSON values ([jsval]); a JavaScript string is a Rocq
      [string], one character per code unit;
    - [Date.now()] is an input of every handler invocation (milliseconds);
    - the in-memory adapter of Socket.IO 4 is modelled by its two maps, the
      members of each room and the rooms of each socket:
      [socket.join]/[socket.leave] add and remove the socket, [socket.emit]
      delivers to the socket's own client, and [socket.to(target).emit] to
      the members of the targeted rooms (every socket when no room is
      targeted) except the members of the room named by the sender's
      identifier; a socket has left all its rooms when its 'disconnect'
      listeners run;
    - an exception is an explicit outcome ([Raise] for the pure validators,
      [Thrown] for the handlers) so that [try]/[catch] can be followed; the
      calls into the logger and the transport fail according to a parameter
      of the handlers, [no_fault] being the environment where none does.

    The first part holds the model, the second part the properties. *)

From Stdlib Require Import ZArith String Ascii List Bool Lia.
From stdpp Require Import base option list gmap sets strings pretty fin_maps.

Set Warnings "-register-all,-clear-no-such-hyp".

Local Open Scope string_scope.
Local Open Scope Z_scope.

(** * Model *)

(** ** JavaScript values carried by an event *)

Module JS.

(** A number is represented by an integer: the handlers look at a number only
    through [typeof] and its truthiness, and stamp integers (milliseconds). *)
Inductive jsval : Type :=
| JUndefined
| JNull
| JBool (b : bool)
| JNum (n : Z)
| JStr (s : string)
| JObj (fields : list (string * jsval))
| JArr (items : list jsval).

(** [typeof v] *)
Definition typeof (v : jsval) : string :=
  match v with
  | JUndefined => "undefined"
  | JNull => "object"
  | JBool _ => "boolean"
  | JNum _ => "number"
  | JStr _ => "string"
  | JObj _ | JArr _ => "object"
  end.

(** ToBoolean: [!v] is [negb (truthy v)]. *)
Definition truthy (v : jsval) : bool :=
  match v with
  | JUndefined | JNull => false
  | JBool b => b
  | JNum n => negb (n =? 0)
  | JStr s => negb (String.eqb s "")
  | JObj _ | JArr _ => true
  end.

(** Pure code that may throw. *)
Inductive exn (A : Type) : Type :=
| Ok (a : A)
| Raise (msg : string).
Arguments Ok {A} a.
Arguments Raise {A} msg.

Definition exn_bind {A B : Type} (m : exn A) (k : A -> exn B) : exn B :=
  match m with
  | Ok a => k a
  | Raise e => Raise e
  end.

Declare Scope exn_scope.
Delimit Scope exn_scope with exn.
Bind Scope exn_scope with exn.
Notation "'do' x <- m ; k" := (exn_bind m (fun x => k))
  (at level 10, x name, m at level 100, k at level 200,
   format "'[v' 'do'  x  <-  m ; '/' k ']'") : exn_scope.
Local Open Scope exn_scope.

(** Own property of an object literal; a missing property reads [undefined]. *)
Fixpoint field (k : string) (fields : list (string * jsval)) : jsval :=
  match fields with
  | [] => JUndefined
  | (k', v) :: rest => if String.eqb k k' then v else field k rest
  end.

(** [v.k] for the property names the handlers read ([room], [socketId], [to],
    [sender], [description], [type], [sdp], [candidate], [msg], [message],
    [stack], [length]). Reading a property of [null] or [undefined] throws a
    TypeError; primitives and arrays only have [length] among these names. *)
Definition get (v : jsval) (k : string) : exn jsval :=
  match v with
  | JUndefined => Raise "TypeError: Cannot read properties of undefined"
  | JNull => Raise "TypeError: Cannot read properties of null"
  | JObj fs => Ok (field k fs)
  | JStr s => Ok (if String.eqb k "length" then JNum (Z.of_nat (String.length s)) else JUndefined)
  | JArr l => Ok (if String.eqb k "length" then JNum (Z.of_nat (List.length l)) else JUndefined)
  | JBool _ | JNum _ => Ok JUndefined
  end.

(** [v === n] against a number literal. *)
Definition strict_eq_num (v : jsval) (n : Z) : bool :=
  match v with
  | JNum m => m =? n
  | _ => false
  end.

(** [v > n] against a number literal, for a number [v] (both uses compare the
    [length] of a string). *)
Definition gt_num (v : jsval) (n : Z) : bool :=
  match v with
  | JNum m => n <? m
  | _ => false
  end.

(** ToString, as applied by [RegExp.prototype.test] to its argument. *)
Definition digits (n : Z) : string := pretty n.

Fixpoint toString (v : jsval) : string :=
  match v with
  | JUndefined => "undefined"
  | JNull => "null"
  | JBool true => "true"
  | JBool false => "false"
  | JNum n => digits n
  | JStr s => s
  | JObj _ => "[object Object]"
  | JArr l =>
      String.concat ","
        (List.map (fun x => match x with
                            | JUndefined | JNull => ""
                            | _ => toString x
                            end) l)
  end.

(** Expression forms used by the validators, with JavaScript's left-to-right,
    short-circuit evaluation. *)
Definition not_ (e : exn jsval) : exn bool := do v <- e; Ok (negb (truthy v)).
Definition typeof_ne (e : exn jsval) (t : string) : exn bool :=
  do v <- e; Ok (negb (String.eqb (typeof v) t)).
Definition length_of (e : exn jsval) : exn jsval := do v <- e; get v "length".
Definition eq_num (e : exn jsval) (n : Z) : exn bool := do v <- e; Ok (strict_eq_num v n).
Definition gt (e : exn jsval) (n : Z) : exn bool := do v <- e; Ok (gt_num v n).
Definition test (re : string -> bool) (e : exn jsval) : exn bool := do v <- e; Ok (re (toString v)).
Definition not_test (re : string -> bool) (e : exn jsval) : exn bool :=
  do b <- test re e; Ok (negb b).
Definition or_ (a b : exn bool) : exn bool :=
  do x <- a; if x then Ok true else b.
Definition and_ (a b : exn bool) : exn bool :=
  do x <- a; if x then b else Ok false.

(** [!['offer', 'answer'].includes(v)] *)
Definition not_offer_or_answer (e : exn jsval) : exn bool :=
  do v <- e;
  Ok (negb match v with
           | JStr s => String.eqb s "offer" || String.eqb s "answer"
           | _ => false
           end).

End JS.
Export JS.
Open Scope exn_scope.

Infix "<||>" := or_ (at level 51, right associativity).
Notation "v '.[' k ']'" := (get v k) (at level 1, left associativity, format "v .[ k ]").

(** ** Regular expressions of the validators *)

Module Regex.

Definition between (lo hi c : ascii) : bool :=
  (N_of_ascii lo <=? N_of_ascii c)%N && (N_of_ascii c <=? N_of_ascii hi)%N.

Definition is_alnum (c : ascii) : bool :=
  between "a" "z" c || between "A" "Z" c || between "0" "9" c.

(** [\w] *)
Definition is_word (c : ascii) : bool := is_alnum c || Ascii.eqb c "_".

(** [[a-zA-Z0-9_-]] *)
Definition is_room_char (c : ascii) : bool := is_word c || Ascii.eqb c "-".

(** [/^[a-zA-Z0-9_-]+$/] *)
Definition room_name_re (s : string) : bool :=
  match list_ascii_of_string s with
  | [] => false
  | cs => forallb is_room_char cs
  end.

Definition lower (c : ascii) : ascii :=
  if between "A" "Z" c then ascii_of_N (N_of_ascii c + 32) else c.

Fixpoint lowercase (s : string) : string :=
  match s with
  | EmptyString => EmptyString
  | String c t => String (lower c) (lowercase t)
  end.

(** [\w+=] at the head of [s]; [seen] records that one [\w] was consumed. *)
Fixpoint word_run_eq (s : string) (seen : bool) : bool :=
  match s with
  | EmptyString => false
  | String c t => if is_word c then word_run_eq t true else seen && Ascii.eqb c "="
  end.

(** One alternative of [<script|javascript:|on\w+=] at the head of [s]. *)
Definition injection_at (s : string) : bool :=
  String.prefix "<script" s || String.prefix "javascript:" s ||
  match s with
  | String "o" (String "n" t) => word_run_eq t false
  | _ => false
  end.

Fixpoint search (p : string -> bool) (s : string) : bool :=
  p s || match s with
         | EmptyString => false
         | String _ t => search p t
         end.

(** [/<script|javascript:|on\w+=/i] *)
Definition injection_re (s : string) : bool := search injection_at (lowercase s).

End Regex.

(** ** Validators (stream.js, lines 58-171) *)

Definition validateRoomData (data : jsval) : exn bool :=
  do c <- Ok (negb (truthy data)) <||> typeof_ne (Ok data) "object";
  if c then Ok false else
  do c <- not_ data.["room"] <||> typeof_ne data.["room"] "string"
        <||> eq_num (length_of data.["room"]) 0;
  if c then Ok false else
  do c <- not_ data.["socketId"] <||> typeof_ne data.["socketId"] "string"
        <||> eq_num (length_of data.["socketId"]) 0;
  if c then Ok false else
  do c <- gt (length_of data.["room"]) 100 <||> not_test Regex.room_name_re data.["room"];
  if c then Ok false else
  Ok true.

Definition validateSDPData (data : jsval) : exn bool :=
  do c <- Ok (negb (truthy data)) <||> typeof_ne (Ok data) "object";
  if c then Ok false else
  do c <- not_ data.["to"] <||> typeof_ne data.["to"] "string";
  if c then Ok false else
  do c <- not_ data.["sender"] <||> typeof_ne data.["sender"] "string";
  if c then Ok false else
  do c <- not_ data.["description"] <||> typeof_ne data.["description"] "object";
  if c then Ok false else
  do c <- not_ (do d <- data.["description"]; d.["type"])
        <||> not_offer_or_answer (do d <- data.["description"]; d.["type"]);
  if c then Ok false else
  do c <- not_ (do d <- data.["description"]; d.["sdp"])
        <||> typeof_ne (do d <- data.["description"]; d.["sdp"]) "string";
  if c then Ok false else
  Ok true.

Definition is_not_null (e : exn jsval) : exn bool :=
  do v <- e; Ok (match v with JNull => false | _ => true end).

Definition validateICEData (data : jsval) : exn bool :=
  do c <- Ok (negb (truthy data)) <||> typeof_ne (Ok data) "object";
  if c then Ok false else
  do c <- not_ data.["to"] <||> typeof_ne data.["to"] "string";
  if c then Ok false else
  do c <- not_ data.["sender"] <||> typeof_ne data.["sender"] "string";
  if c then Ok false else
  do c <- and_ (is_not_null data.["candidate"])
           (not_ data.["candidate"] <||> typeof_ne data.["candidate"] "object");
  if c then Ok false else
  Ok true.

Definition validateChatData (data : jsval) : exn bool :=
  do c <- Ok (negb (truthy data)) <||> typeof_ne (Ok data) "object";
  if c then Ok false else
  do c <- not_ data.["room"] <||> typeof_ne data.["room"] "string";
  if c then Ok false else
  do c <- not_ data.["sender"] <||> typeof_ne data.["sender"] "string";
  if c then Ok false else
  do c <- not_ data.["msg"] <||> typeof_ne data.["msg"] "string";
  if c then Ok false else
  do c <- eq_num (length_of data.["msg"]) 0 <||> gt (length_of data.["msg"]) 1000;
  if c then Ok false else
  do c <- test Regex.injection_re data.["msg"];
  if c then Ok false else
  Ok true.

(** ** Rate limiter (stream.js, lines 17-51) *)

Record window : Type := Window { count : Z; resetTime : Z }.

Definition RATE_LIMIT_WINDOW : Z := 1000.
Definition RATE_LIMIT_MAX_EVENTS : Z := 10.

(** The template literal [`${socketId}:${event}`]. *)
Definition limit_key (socketId event : string) : string :=
  socketId +:+ ":" +:+ event.

(** [isRateLimited socketId event], with the module-level [rateLimitMap] and
    the reading of [Date.now()] passed in; the result pairs the returned
    boolean ([true]: rate limited) with the map after the call. *)
Definition isRateLimited (rateLimitMap : gmap string window)
    (socketId event : string) (now : Z) : bool * gmap string window :=
  let key := limit_key socketId event in
  match rateLimitMap !! key with
  | None =>
      (false, <[key := Window 1 (now + RATE_LIMIT_WINDOW)]> rateLimitMap)
  | Some limit =>
      if now >? resetTime limit then
        (false, <[key := Window 1 (now + RATE_LIMIT_WINDOW)]> rateLimitMap)
      else if count limit >=? RATE_LIMIT_MAX_EVENTS then
        (true, rateLimitMap)
      else
        (false, <[key := Window (count limit + 1) (resetTime limit)]> rateLimitMap)
  end.

(** The same connection sending the same event at each of the given times:
    the answers of [isRateLimited], in order, and the final map. *)
Fixpoint burst (rateLimitMap : gmap string window) (socketId event : string)
    (times : list Z) : list bool * gmap string window :=
  match times with
  | [] => ([], rateLimitMap)
  | now :: later =>
      let '(limited, m) := isRateLimited rateLimitMap socketId event now in
      let '(answers, m') := burst m socketId event later in
      (limited :: answers, m')
  end.

(** The cleanup loop of the disconnect handler (lines 434-441): collect the
    keys that start with the socket identifier, then delete them. *)
Definition keysToDelete (rateLimitMap : gmap string window) (socketId : string) : list string :=
  List.filter (fun key => String.prefix socketId key) (map fst (map_to_list rateLimitMap)).

Definition sweep (rateLimitMap : gmap string window) (socketId : string) : gmap string window :=
  foldl (fun m key => delete key m) rateLimitMap (keysToDelete rateLimitMap socketId).

(** ** The server's state and the handler monad *)

Inductive level : Type := LError | LWarn | LInfo | LDebug.

(** A message handed to the transport: the sockets whose clients receive it,
    the event name and the payload. *)
Record emission : Type := Emission {
  recipients : gset string;
  event : string;
  payload : jsval
}.

Record world : Type := World {
  rooms : gmap string (gset string);      (* socket.adapter.rooms *)
  sids : gmap string (gset string);       (* socket.adapter.sids: socket.rooms *)
  rateLimitMap : gmap string window;      (* module-level Map *)
  sent : list emission;                   (* oldest first *)
  logged : list (level * string)          (* logger calls, oldest first *)
}.

Definition set_rooms (f : gmap string (gset string) -> gmap string (gset string)) (w : world) : world :=
  World (f (rooms w)) (sids w) (rateLimitMap w) (sent w) (logged w).
Definition set_sids (f : gmap string (gset string) -> gmap string (gset string)) (w : world) : world :=
  World (rooms w) (f (sids w)) (rateLimitMap w) (sent w) (logged w).
Definition set_rateLimitMap (m : gmap string window) (w : world) : world :=
  World (rooms w) (sids w) m (sent w) (logged w).
Definition push_sent (e : emission) (w : world) : world :=
  World (rooms w) (sids w) (rateLimitMap w) (sent w ++ [e]) (logged w).
Definition push_logged (l : level) (msg : string) (w : world) : world :=
  World (rooms w) (sids w) (rateLimitMap w) (sent w) (logged w ++ [(l, msg)]).

(** A handler either runs to its end or lets an exception escape; the state
    changes made before the exception stay. *)
Inductive outcome (A : Type) : Type :=
| Done (a : A) (w : world)
| Thrown (err : string) (w : world).
Arguments Done {A} a w.
Arguments Thrown {A} err w.

Definition world_of {A : Type} (o : outcome A) : world :=
  match o with
  | Done _ w | Thrown _ w => w
  end.

Definition M (A : Type) : Type := world -> outcome A.

Definition M_ret {A : Type} (a : A) : M A := fun w => Done a w.

Definition M_bind {A B : Type} (m : M A) (k : A -> M B) : M B :=
  fun w =>
    match m w with
    | Done a w' => k a w'
    | Thrown e w' => Thrown e w'
    end.

Definition throw {A : Type} (err : string) : M A := fun w => Thrown err w.

(** [try { body } catch (error) { handler }] *)
Definition try_catch {A : Type} (body : M A) (handler : string -> M A) : M A :=
  fun w =>
    match body w with
    | Done a w' => Done a w'
    | Thrown e w' => handler e w'
    end.

(** A validator call inside a handler. *)
Definition lift {A : Type} (e : exn A) : M A :=
  match e with
  | Ok a => M_ret a
  | Raise msg => throw msg
  end.

Definition modify (f : world -> world) : M unit := fun w => Done tt (f w).

Definition gets {A : Type} (f : world -> A) : M A := fun w => Done (f w) w.

Declare Scope handler_scope.
Delimit Scope handler_scope with M.
Notation "'do' x <- m ; k" := (M_bind m (fun x => k))
  (at level 10, x name, m at level 100, k at level 200,
   format "'[v' 'do'  x  <-  m ; '/' k ']'") : handler_scope.
Notation "m ;; k" := (M_bind m (fun _ => k))
  (at level 100, k at level 200, right associativity) : handler_scope.

(** ** The rooms of the adapter *)

Definition members (rs : gmap string (gset string)) (room : string) : gset string :=
  default ∅ (rs !! room).

(** Rooms are named by strings; [socket.join] and [socket.to] also take an
    array of names. A value of another type names no room that exists. *)
Definition room_names (target : jsval) : list string :=
  match target with
  | JStr r => [r]
  | JArr items => omap (fun v => match v with JStr r => Some r | _ => None end) items
  | _ => []
  end.

Definition add_member (id room : string) (rs : gmap string (gset string)) : gmap string (gset string) :=
  <[room := {[id]} ∪ members rs room]> rs.

(** A room that loses its last member is deleted. *)
Definition remove_member (id room : string) (rs : gmap string (gset string)) : gmap string (gset string) :=
  match rs !! room with
  | None => rs
  | Some s => if decide (s ∖ {[id]} = ∅) then delete room rs else <[room := s ∖ {[id]}]> rs
  end.

(** The members of the targeted rooms, for [socket.to(target)]. *)
Definition audience (rs : gmap string (gset string)) (target : jsval) : gset string :=
  ⋃ (members rs <$> room_names target).

(** [socket.rooms]: the entry of the socket in [adapter.sids], or no room. *)
Definition socket_rooms_of (ss : gmap string (gset string)) (id : string) : gset string :=
  default ∅ (ss !! id).

(** The side of [adapter.addAll] and [adapter.del] that keeps [adapter.sids]:
    joining creates the entry of the socket, leaving keeps it. *)
Definition note_joined (id : string) (names : list string)
    (ss : gmap string (gset string)) : gmap string (gset string) :=
  <[id := socket_rooms_of ss id ∪ list_to_set names]> ss.

Definition note_left (id room : string)
    (ss : gmap string (gset string)) : gmap string (gset string) :=
  match ss !! id with
  | Some s => <[id := s ∖ {[room]}]> ss
  | None => ss
  end.

(** ** The stream handler (stream.js, lines 173-463) *)

(** Calls into the logger and the transport. Each of them can fail with an
    internal fault; which ones do is a parameter of the handlers. *)
Inductive op : Type := OpLog | OpEmit | OpBroadcast | OpJoin | OpLeave | OpRooms.

Definition no_fault : op -> bool := fun _ => false.

Definition message (text : string) : jsval := JObj [("message", JStr text)].

(** The sockets reached by [socket.to(target).emit] from socket [id]. The
    operator collects the targeted rooms, an array adding each of its
    elements, and excepts the room named [id]: the adapter sends to the
    members of the targeted rooms, or to every socket it knows when no room
    is targeted, and skips the members of the excepted room. *)
Definition to_recipients (w : world) (id : string) (target : jsval) : gset string :=
  match target with
  | JArr [] => dom (sids w)
  | _ => audience (rooms w) target
  end ∖ members (rooms w) id.

Section Stream.

Variable faulty : op -> bool.
Variable MAX_ROOM_SIZE : nat.          (* config.MAX_ROOM_SIZE *)

Local Open Scope handler_scope.

Definition call (o : op) : M unit :=
  fun w => if faulty o then Thrown "internal fault" w else Done tt w.

(** [logger.error], [logger.warn], [logger.info], [logger.debug] *)
Definition logger (l : level) (msg : string) : M unit :=
  call OpLog ;; modify (push_logged l msg).

(** [socket.emit(ev, payload)]: to the client of this socket. *)
Definition socket_emit (id ev : string) (data : jsval) : M unit :=
  call OpEmit ;; modify (push_sent (Emission {[id]} ev data)).

(** [socket.to(target).emit(ev, payload)] *)
Definition socket_to_emit (id : string) (target : jsval) (ev : string) (data : jsval) : M unit :=
  call OpBroadcast ;;
  modify (fun w => push_sent (Emission (to_recipients w id target) ev data) w).

(** [socket.join(room)] *)
Definition socket_join (id : string) (room : jsval) : M unit :=
  call OpJoin ;;
  modify (set_rooms (fun rs => foldl (fun acc r => add_member id r acc) rs (room_names room))) ;;
  modify (set_sids (note_joined id (room_names room))).

(** [socket.leave(room)] *)
Definition socket_leave (id : string) (room : jsval) : M unit :=
  call OpLeave ;;
  modify (set_rooms (fun rs => match room with
                               | JStr r => remove_member id r rs
                               | _ => rs
                               end)) ;;
  modify (set_sids (fun ss => match room with
                              | JStr r => note_left id r ss
                              | _ => ss
                              end)).

(** [socket.adapter.rooms.get(room)] *)
Definition rooms_get (room : jsval) : M (option (gset string)) :=
  call OpRooms ;;
  gets (fun w => match room with JStr r => rooms w !! r | _ => None end).

(** [socket.adapter.rooms.has(room)] *)
Definition rooms_has (room : jsval) : M bool :=
  do roomData <- rooms_get room; M_ret (bool_decide (is_Some roomData)).

Definition rate_limited (id ev : string) (now : Z) : M bool :=
  fun w =>
    let '(limited, m) := isRateLimited (rateLimitMap w) id ev now in
    Done limited (set_rateLimitMap m w).

(** Lines 179-187. *)
Definition getRoomSize (room : jsval) : M nat :=
  try_catch
    (do roomData <- rooms_get room;
     M_ret (match roomData with Some s => size s | None => 0%nat end))
    (fun _ => logger LError "Error getting room size:" ;; M_ret 0%nat).

(** Lines 200-254. *)
Definition on_subscribe (id : string) (data : jsval) (now : Z) : M unit :=
  try_catch
    (do limited <- rate_limited id "subscribe" now;
     if limited then
       logger LWarn "Rate limited subscribe attempt" ;;
       socket_emit id "error" (message "Too many requests. Please slow down.")
     else
     do valid <- lift (validateRoomData data);
     if negb valid then
       logger LWarn "Invalid room data received" ;;
       socket_emit id "error" (message "Invalid room data")
     else
     do room <- lift data.["room"];
     do currentRoomSize <- getRoomSize room;
     if (MAX_ROOM_SIZE <=? currentRoomSize)%nat then
       logger LWarn "Room size limit exceeded" ;;
       socket_emit id "error" (message "Room is full. Maximum capacity reached.")
     else
     socket_join id room ;;
     do socketId <- lift data.["socketId"];
     socket_join id socketId ;;
     do roomSize <- getRoomSize room;
     logger LInfo "User joined room" ;;
     do present <- rooms_has room;
     if present then
       socket_to_emit id room "new user"
         (JObj [("socketId", socketId); ("timestamp", JNum now)])
     else M_ret tt)
    (fun _ =>
       logger LError "Error in subscribe handler:" ;;
       socket_emit id "error" (message "Internal server error")).

(** [!data || !data.to || !data.sender] *)
Definition newUserStart_invalid (data : jsval) : exn bool :=
  Ok (negb (truthy data)) <||> not_ data.["to"] <||> not_ data.["sender"].

(** Lines 257-288. *)
Definition on_newUserStart (id : string) (data : jsval) (now : Z) : M unit :=
  try_catch
    (do limited <- rate_limited id "newUserStart" now;
     if limited then logger LWarn "Rate limited newUserStart attempt" else
     do invalid <- lift (newUserStart_invalid data);
     if invalid then logger LWarn "Invalid newUserStart data" else
     logger LDebug "New user start signal" ;;
     do to <- lift data.["to"];
     do sender <- lift data.["sender"];
     socket_to_emit id to "newUserStart"
       (JObj [("sender", sender); ("timestamp", JNum now)]))
    (fun _ => logger LError "Error in newUserStart handler:").

(** Lines 291-324. *)
Definition on_sdp (id : string) (data : jsval) (now : Z) : M unit :=
  try_catch
    (do limited <- rate_limited id "sdp" now;
     if limited then logger LWarn "Rate limited SDP attempt" else
     do valid <- lift (validateSDPData data);
     if negb valid then logger LWarn "Invalid SDP data received" else
     logger LDebug "SDP exchange" ;;
     do to <- lift data.["to"];
     do description <- lift data.["description"];
     do sender <- lift data.["sender"];
     socket_to_emit id to "sdp"
       (JObj [("description", description); ("sender", sender); ("timestamp", JNum now)]))
    (fun _ => logger LError "Error in SDP handler:").

(** Lines 327-360. *)
Definition on_ice_candidates (id : string) (data : jsval) (now : Z) : M unit :=
  try_catch
    (do limited <- rate_limited id "ice candidates" now;
     if limited then logger LWarn "Rate limited ICE candidates attempt" else
     do valid <- lift (validateICEData data);
     if negb valid then logger LWarn "Invalid ICE candidate data received" else
     logger LDebug "ICE candidates exchange" ;;
     do to <- lift data.["to"];
     do candidate <- lift data.["candidate"];
     do sender <- lift data.["sender"];
     socket_to_emit id to "ice candidates"
       (JObj [("candidate", candidate); ("sender", sender); ("timestamp", JNum now)]))
    (fun _ => logger LError "Error in ICE candidates handler:").

(** Lines 363-399. *)
Definition on_chat (id : string) (data : jsval) (now : Z) : M unit :=
  try_catch
    (do limited <- rate_limited id "chat" now;
     if limited then
       logger LWarn "Rate limited chat attempt" ;;
       socket_emit id "error" (message "Too many messages. Please slow down.")
     else
     do valid <- lift (validateChatData data);
     if negb valid then
       logger LWarn "Invalid chat data received" ;;
       socket_emit id "error" (message "Invalid message format")
     else
     logger LDebug "Chat message sent" ;;
     do room <- lift data.["room"];
     do sender <- lift data.["sender"];
     do msg <- lift data.["msg"];
     socket_to_emit id room "chat"
       (JObj [("sender", sender); ("msg", msg); ("timestamp", JNum now)]))
    (fun _ =>
       logger LError "Error in chat handler:" ;;
       socket_emit id "error" (message "Failed to send message")).

(** [data && data.room] as a condition. *)
Definition has_room (data : jsval) : exn bool :=
  if truthy data then do room <- data.["room"]; Ok (truthy room) else Ok false.

(** Lines 402-422. *)
Definition on_leaveRoom (id : string) (data : jsval) (now : Z) : M unit :=
  try_catch
    (do present <- lift (has_room data);
     if present then
       do room <- lift data.["room"];
       socket_leave id room ;;
       socket_to_emit id room "userLeft"
         (JObj [("socketId", JStr id); ("timestamp", JNum now)]) ;;
       logger LInfo "User left room"
     else M_ret tt)
    (fun _ => logger LError "Error in leaveRoom handler:").

Fixpoint forEach {A : Type} (f : A -> M unit) (l : list A) : M unit :=
  match l with
  | [] => M_ret tt
  | x :: rest => f x ;; forEach f rest
  end.

(** Lines 425-453; [socket_rooms] is [Array.from(socket.rooms)] as the
    transport reports it when the handler runs. *)
Definition on_disconnect (id : string) (socket_rooms : list string) (now : Z) : M unit :=
  logger LInfo "Socket disconnected" ;;
  modify (fun w => set_rateLimitMap (sweep (rateLimitMap w) id) w) ;;
  forEach (fun room =>
             if negb (String.eqb room id) then
               socket_to_emit id (JStr room) "userLeft"
                 (JObj [("socketId", JStr id); ("timestamp", JNum now)])
             else M_ret tt)
          socket_rooms.

(** Lines 456-462. *)
Definition on_error (id : string) (error : jsval) : M unit :=
  do _ <- lift error.["message"];
  do _ <- lift error.["stack"];
  logger LError "Socket error:".

(** The events a socket delivers to the handlers registered by [stream]. *)
Inductive inbound : Type :=
| Subscribe (data : jsval)
| NewUserStart (data : jsval)
| Sdp (data : jsval)
| IceCandidates (data : jsval)
| Chat (data : jsval)
| LeaveRoom (data : jsval)
| Disconnect (socket_rooms : list string)
| SocketError (error : jsval).

Definition stream (id : string) (ev : inbound) (now : Z) : M unit :=
  match ev with
  | Subscribe data => on_subscribe id data now
  | NewUserStart data => on_newUserStart id data now
  | Sdp data => on_sdp id data now
  | IceCandidates data => on_ice_candidates id data now
  | Chat data => on_chat id data now
  | LeaveRoom data => on_leaveRoom id data now
  | Disconnect socket_rooms => on_disconnect id socket_rooms now
  | SocketError error => on_error id error
  end.

End Stream.

(** ** Vocabulary of the properties *)

(** What each guard of the validators asks of a value. *)
Definition is_object (v : jsval) : bool :=
  match v with
  | JObj _ | JArr _ => true
  | _ => false
  end.

Definition nonempty_string (v : jsval) : bool :=
  match v with
  | JStr s => negb (String.eqb s "")
  | _ => false
  end.

Definition offer_or_answer (v : jsval) : bool :=
  match v with
  | JStr s => String.eqb s "offer" || String.eqb s "answer"
  | _ => false
  end.

Definition null_or_object (v : jsval) : bool :=
  match v with
  | JNull | JObj _ | JArr _ => true
  | _ => false
  end.

(** [v.k] where the read cannot throw. *)
Definition prop (v : jsval) (k : string) : jsval :=
  match v.[k] with
  | Ok x => x
  | Raise _ => JUndefined
  end.

(** The validators in closed form on an object literal. *)
Definition room_data_ok (fs : list (string * jsval)) : bool :=
  nonempty_string (field "room" fs) && nonempty_string (field "socketId" fs) &&
  match field "room" fs with
  | JStr r => negb (100 <? Z.of_nat (String.length r)) && Regex.room_name_re r
  | _ => false
  end.

Definition sdp_data_ok (fs : list (string * jsval)) : bool :=
  nonempty_string (field "to" fs) && nonempty_string (field "sender" fs) &&
  is_object (field "description" fs) &&
  offer_or_answer (prop (field "description" fs) "type") &&
  nonempty_string (prop (field "description" fs) "sdp").

Definition ice_data_ok (fs : list (string * jsval)) : bool :=
  nonempty_string (field "to" fs) && nonempty_string (field "sender" fs) &&
  null_or_object (field "candidate" fs).

Definition chat_data_ok (fs : list (string * jsval)) : bool :=
  nonempty_string (field "room" fs) && nonempty_string (field "sender" fs) &&
  match field "msg" fs with
  | JStr msg => negb (String.eqb msg "") && negb (1000 <? Z.of_nat (String.length msg))
                && negb (Regex.injection_re msg)
  | _ => false
  end.

(** The name under which an event is registered and rate limited. *)
Definition event_name (ev : inbound) : string :=
  match ev with
  | Subscribe _ => "subscribe"
  | NewUserStart _ => "newUserStart"
  | Sdp _ => "sdp"
  | IceCandidates _ => "ice candidates"
  | Chat _ => "chat"
  | LeaveRoom _ => "leaveRoom"
  | Disconnect _ => "disconnect"
  | SocketError _ => "error"
  end.

(** The verdict of the validation step of each handler ([true]: accepted). *)
Definition validation (ev : inbound) : exn bool :=
  match ev with
  | Subscribe data => validateRoomData data
  | NewUserStart data => do invalid <- newUserStart_invalid data; Ok (negb invalid)
  | Sdp data => validateSDPData data
  | IceCandidates data => validateICEData data
  | Chat data => validateChatData data
  | LeaveRoom _ | Disconnect _ | SocketError _ => Ok true
  end.

(** The relation [R] holds between the state before a computation and the
    state in which it ends, whether it returns or throws. *)
Definition preserves (R : world -> world -> Prop) {A : Type} (m : M A) : Prop :=
  forall w, R w (world_of (m w)).

(** The computation returns from every state. *)
Definition returns {A : Type} (m : M A) : Prop :=
  forall w, exists a w', m w = Done a w'.

(** The events broadcast to a room on behalf of a connection. *)
Definition room_broadcasts : list string := ["new user"; "chat"; "userLeft"].

(** An emission made on behalf of connection [id] is in order when, being one
    of the room broadcasts, it is not addressed to [id]. *)
Definition spares_sender (id : string) (e : emission) : Prop :=
  event e ∈ room_broadcasts -> id ∉ recipients e.

(** The socket is a member of the room named by its own identifier, which it
    joined when it connected. *)
Definition in_own_room (id : string) (w : world) : Prop :=
  id ∈ members (rooms w) id.

(** When the socket is in its own room in [w], it still is in [w'], and
    between [w] and [w'] messages were only added, all of them in order. *)
Definition sends_sparing (id : string) (w w' : world) : Prop :=
  in_own_room id w ->
  in_own_room id w' /\
  exists new, sent w' = (sent w ++ new)%list /\ Forall (spares_sender id) new.

Definition same_windows (w w' : world) : Prop := rateLimitMap w' = rateLimitMap w.

Definition same_rooms (w w' : world) : Prop := rooms w' = rooms w.

(** A fault pattern: only the room broadcast fails. *)
Definition broadcast_fails (o : op) : bool :=
  match o with
  | OpBroadcast => true
  | _ => false
  end.

(** A fault pattern: only the logger fails. *)
Definition logger_fails (o : op) : bool :=
  match o with
  | OpLog => true
  | _ => false
  end.

(** ** Further model: sequences of limiter calls, the connection handler,
       configuration and log levels *)

(** The module-level [rateLimitMap] after a sequence of [isRateLimited]
    calls, each given by connection, event and clock reading. *)
Definition calls (m : gmap string window) (l : list (string * string * Z)) : gmap string window :=
  foldl (fun acc '(c, e, now) => snd (isRateLimited acc c e now)) m l.

(** Every window counts between 1 and 10 events and resets 1000 ms after
    one of the given clock readings. *)
Definition well_formed (times : list Z) (m : gmap string window) : Prop :=
  forall key limit, m !! key = Some limit ->
    1 <= count limit <= 10 /\ exists now, now ∈ times /\ resetTime limit = now + 1000.

(** The identifier holds no [":"], the separator of [limit_key]. *)
Definition no_colon (s : string) : bool :=
  forallb (fun ch => negb (Ascii.eqb ch ":")) (list_ascii_of_string s).

(** The number of admitted calls among the answers of [isRateLimited]. *)
Definition admitted (answers : list bool) : nat :=
  List.length (List.filter negb answers).

(** A fault pattern: only the lookups in [socket.adapter.rooms] fail. *)
Definition rooms_fail (o : op) : bool :=
  match o with
  | OpRooms => true
  | _ => false
  end.

(** The 'userLeft' payload of the connection handler of the server: unlike
    the one of the stream handler it has no timestamp. *)
Definition userLeft_plain (id : string) : jsval :=
  JObj [("socketId", JStr id)].

Section Connection.

Variable faulty : op -> bool.
Variable MAX_ROOM_SIZE : nat.

Local Open Scope handler_scope.

(** The 'disconnect' listener of the connection handler of the server
    ([io.of('/stream').on('connection', ...)]), registered before
    [stream(socket)] adds its own. Its log line also carries the socket
    identifier and the reason. *)
Definition connection_on_disconnect (id : string) (socket_rooms : list string) : M unit :=
  logger faulty LInfo "Client disconnected" ;;
  forEach (fun room =>
             if negb (String.eqb room id) then
               socket_to_emit faulty id (JStr room) "userLeft" (userLeft_plain id)
             else M_ret tt)
          socket_rooms.

(** A 'disconnect' event runs the listeners in the order of registration:
    the one of the connection handler, then the one of [stream]. *)
Definition emit_disconnect (id : string) (socket_rooms : list string) (now : Z) : M unit :=
  connection_on_disconnect id socket_rooms ;;
  stream faulty MAX_ROOM_SIZE id (Disconnect socket_rooms) now.

End Connection.

(** ** The transport around the handlers *)

(** [adapter.delAll(id)]: the socket leaves the rooms listed in its entry of
    [adapter.sids], and the entry is deleted. *)
Definition del_all (id : string) (w : world) : world :=
  World (foldr (remove_member id) (rooms w) (elements (socket_rooms_of (sids w) id)))
        (delete id (sids w)) (rateLimitMap w) (sent w) (logged w).

(** A socket joins the room named by its own identifier when it connects; the
    events of its client are delivered to the handlers registered by
    [stream]; when it disconnects it first leaves all its rooms, then its
    'disconnect' listeners run and read [socket.rooms] ([Deliver] of a
    [Disconnect] stands for this, whatever list the event carries). The
    states of the server are those reached from [start] by such actions. *)
Inductive action : Type :=
| Connect (id : string)
| Deliver (id : string) (ev : inbound) (now : Z).

Definition step (MAX_ROOM_SIZE : nat) (w : world) (a : action) : world :=
  match a with
  | Connect id => set_sids (note_joined id [id]) (set_rooms (add_member id id) w)
  | Deliver id ev now =>
      match ev with
      | Disconnect _ =>
          let w1 := del_all id w in
          world_of (emit_disconnect no_fault MAX_ROOM_SIZE id
                      (elements (socket_rooms_of (sids w1) id)) now w1)
      | _ => world_of (stream no_fault MAX_ROOM_SIZE id ev now w)
      end
  end.

Definition run (MAX_ROOM_SIZE : nat) (w : world) (actions : list action) : world :=
  foldl (step MAX_ROOM_SIZE) w actions.

(** No room, no socket, no window, nothing sent or logged. *)
Definition start : world := World ∅ ∅ ∅ [] [].

(** The action does not enter room [R] by a way that skips the size check:
    it is not the connection of a socket named [R], nor a subscribe whose
    [socketId] is [R]. *)
Definition checked_for (R : string) (a : action) : Prop :=
  match a with
  | Connect id => id <> R
  | Deliver _ (Subscribe data) _ => data.["socketId"] <> Ok (JStr R)
  | Deliver _ _ _ => True
  end.

(** The event [subscribe {room, socketId}]. *)
Definition subscribe_to (room participant : string) : inbound :=
  Subscribe (JObj [("room", JStr room); ("socketId", JStr participant)]).


(** Configuration (config.js). [parseInt(process.env.X)] is an input: an
    integer, or [None] for NaN; a variable of the environment is a string or
    [None] when undefined. *)
Module Config.

Record env : Type := Env {
  env_PORT : option Z;
  env_HOST : option string;
  env_RATE_LIMIT_MAX_REQUESTS : option Z;
  env_MAX_ROOM_SIZE : option Z;
  env_LOG_LEVEL : option string
}.

Record config : Type := Build {
  PORT : Z;
  HOST : string;
  RATE_LIMIT_MAX_REQUESTS : Z;
  MAX_ROOM_SIZE : Z;
  LOG_LEVEL : string
}.

(** [parseInt(x) || d]: NaN and 0 are falsy. *)
Definition number_or (parsed : option Z) (d : Z) : Z :=
  match parsed with
  | Some n => if n =? 0 then d else n
  | None => d
  end.

(** [x || d] for a variable of the environment: undefined and the empty
    string are falsy. *)
Definition string_or (x : option string) (d : string) : string :=
  match x with
  | Some s => if String.eqb s "" then d else s
  | None => d
  end.

Definition load (e : env) : config :=
  Build (number_or (env_PORT e) 3000)
        (string_or (env_HOST e) "0.0.0.0")
        (number_or (env_RATE_LIMIT_MAX_REQUESTS e) 100)
        (number_or (env_MAX_ROOM_SIZE e) 10)
        (string_or (env_LOG_LEVEL e) "info").

(** [required.filter(key => !config[key])] with [required = ['PORT', 'HOST']] *)
Definition missing (c : config) : list string :=
  (if PORT c =? 0 then ["PORT"] else []) ++
  (if String.eqb (HOST c) "" then ["HOST"] else []).

(** [validateConfig]: [Ok true], or the message of the error thrown. *)
Definition validateConfig (c : config) : exn bool :=
  match missing c with
  | _ :: _ =>
      Raise ("Missing required configuration: " +:+ String.concat ", " (missing c))
  | [] =>
      if (PORT c <? 1) || (PORT c >? 65535) then
        Raise ("Invalid port number: " +:+ digits (PORT c) +:+ ". Must be between 1 and 65535.")
      else if RATE_LIMIT_MAX_REQUESTS c <? 1 then
        Raise "Rate limit max requests must be greater than 0"
      else if (MAX_ROOM_SIZE c <? 2) || (MAX_ROOM_SIZE c >? 50) then
        Raise "Max room size must be between 2 and 50"
      else Ok true
  end.

(** A value the loader accepts for a variable: unset or unparsable, 0 (the
    default is taken in these cases), or within the bounds. *)
Definition unset_or_within (parsed : option Z) (lo : Z) (hi : option Z) : Prop :=
  match parsed with
  | None => True
  | Some n => n = 0 \/ (lo <= n /\ match hi with Some h => n <= h | None => True end)
  end.

End Config.

(** Log levels (utils/logger.js). *)
Module Logger.

Definition levelNum (l : level) : Z :=
  match l with
  | LError => 0
  | LWarn => 1
  | LInfo => 2
  | LDebug => 3
  end.

Section Levels.

(** The names every object inherits from [Object.prototype] ([constructor],
    [toString], ...), whose values are functions or objects. *)
Variable inherited : string -> bool.

(** [LOG_LEVELS[name]] *)
Definition LOG_LEVELS (name : string) : jsval :=
  if String.eqb name "error" then JNum 0
  else if String.eqb name "warn" then JNum 1
  else if String.eqb name "info" then JNum 2
  else if String.eqb name "debug" then JNum 3
  else if inherited name then JObj []
  else JUndefined.

(** [LOG_LEVELS[config.LOG_LEVEL] || LOG_LEVELS.info] *)
Definition CURRENT_LOG_LEVEL (LOG_LEVEL : string) : jsval :=
  if truthy (LOG_LEVELS LOG_LEVEL) then LOG_LEVELS LOG_LEVEL else LOG_LEVELS "info".

(** [n > v] for a number [n]: [v] is a number, or an object or function,
    which converts to NaN and compares false. *)
Definition exceeds (n : Z) (v : jsval) : bool :=
  match v with
  | JNum c => c <? n
  | _ => false
  end.

(** Whether [log(level, ...)] writes its message: it returns early when
    [levelNum > CURRENT_LOG_LEVEL]. *)
Definition writes (LOG_LEVEL : string) (l : level) : bool :=
  negb (exceeds (levelNum l) (CURRENT_LOG_LEVEL LOG_LEVEL)).

End Levels.

End Logger.

(** * Properties *)

(** ** Validators on sample payloads *)

Example validateRoomData_ok :
  validateRoomData (JObj [("room", JStr "team-1"); ("socketId", JStr "p1")]) = Ok true.
Proof. reflexivity. Qed.

Example validateRoomData_space :
  validateRoomData (JObj [("room", JStr "team 1"); ("socketId", JStr "p1")]) = Ok false.
Proof. reflexivity. Qed.

Example validateChatData_script :
  validateChatData (JObj [("room", JStr "r"); ("sender", JStr "a");
                          ("msg", JStr "<SCRIPT>alert(1)</script>")]) = Ok false.
Proof. reflexivity. Qed.

Example validateChatData_onclick :
  validateChatData (JObj [("room", JStr "r"); ("sender", JStr "a");
                          ("msg", JStr "x onClick=1")]) = Ok false.
Proof. reflexivity. Qed.

Example validateChatData_plain :
  validateChatData (JObj [("room", JStr "r"); ("sender", JStr "a");
                          ("msg", JStr "on = off")]) = Ok true.
Proof. reflexivity. Qed.

(** ** Validators *)

Ltac unfold_validator :=
  unfold validateRoomData, validateSDPData, validateICEData, validateChatData,
    newUserStart_invalid, has_room,
    or_, and_, not_, typeof_ne, eq_num, gt, not_test, test, not_offer_or_answer,
    is_not_null, length_of, exn_bind.

Lemma get_object v k : is_object v = true -> v.[k] = Ok (prop v k).
Proof. destruct v; try discriminate; reflexivity. Qed.

Lemma guard_object v :
  Ok (negb (truthy v)) <||> typeof_ne (Ok v) "object" = Ok (negb (is_object v)).
Proof.
  destruct v as [| |b|n|s| |]; unfold_validator; simpl; try reflexivity.
  - destruct b; reflexivity.
  - destruct (n =? 0); reflexivity.
  - destruct (String.eqb s ""); reflexivity.
Qed.

Lemma guard_string v :
  not_ (Ok v) <||> typeof_ne (Ok v) "string" = Ok (negb (nonempty_string v)).
Proof.
  destruct v as [| |b|n|s| |]; unfold_validator; simpl; try reflexivity.
  - destruct b; reflexivity.
  - destruct (n =? 0); reflexivity.
  - destruct (String.eqb s ""); reflexivity.
Qed.

Lemma length_zero s : (Z.of_nat (String.length s) =? 0) = String.eqb s "".
Proof. destruct s; reflexivity. Qed.

Lemma guard_string_length v :
  not_ (Ok v) <||> typeof_ne (Ok v) "string" <||> eq_num (length_of (Ok v)) 0
  = Ok (negb (nonempty_string v)).
Proof.
  destruct v as [| |b|n|s| |]; unfold_validator; simpl; try reflexivity.
  - destruct b; reflexivity.
  - destruct (n =? 0); reflexivity.
  - rewrite length_zero. destruct (String.eqb s ""); reflexivity.
Qed.

Lemma guard_type v :
  not_ (Ok v) <||> not_offer_or_answer (Ok v) = Ok (negb (offer_or_answer v)).
Proof.
  destruct v as [| |b|n|s| |]; unfold_validator; simpl; try reflexivity.
  - destruct b; reflexivity.
  - destruct (n =? 0); reflexivity.
  - destruct (String.eqb s "") eqn:E; [|reflexivity].
    apply String.eqb_eq in E. subst s. reflexivity.
Qed.

Lemma guard_candidate v :
  and_ (is_not_null (Ok v)) (not_ (Ok v) <||> typeof_ne (Ok v) "object")
  = Ok (negb (null_or_object v)).
Proof.
  destruct v as [| |b|n|s| |]; unfold_validator; simpl; try reflexivity.
  - destruct b; reflexivity.
  - destruct (n =? 0); reflexivity.
  - destruct (String.eqb s ""); reflexivity.
Qed.

Lemma validateRoomData_object fs : validateRoomData (JObj fs) = Ok (room_data_ok fs).
Proof.
  unfold validateRoomData, room_data_ok. rewrite guard_object. cbn [exn_bind is_object negb get].
  rewrite !guard_string_length.
  destruct (field "room" fs) as [| |b|n|r| |]; try reflexivity.
  cbn [exn_bind nonempty_string]. destruct (String.eqb r ""); [reflexivity|].
  cbn [negb andb]. destruct (nonempty_string (field "socketId" fs)); [|reflexivity].
  unfold_validator. simpl. destruct (100 <? _); [reflexivity|].
  destruct (Regex.room_name_re r); reflexivity.
Qed.

Lemma validateSDPData_object fs : validateSDPData (JObj fs) = Ok (sdp_data_ok fs).
Proof.
  unfold validateSDPData, sdp_data_ok. rewrite guard_object. cbn [exn_bind is_object negb get].
  rewrite !guard_string. cbn [exn_bind].
  destruct (nonempty_string (field "to" fs)); [|reflexivity].
  destruct (nonempty_string (field "sender" fs)); [|reflexivity].
  cbn [negb andb]. change (not_ (Ok ?v) <||> typeof_ne (Ok ?v) "object")
    with (Ok (negb (truthy v)) <||> typeof_ne (Ok v) "object").
  rewrite guard_object. cbn [exn_bind].
  destruct (is_object (field "description" fs)) eqn:Hd; [|reflexivity].
  cbn [negb andb]. rewrite (get_object _ "type" Hd), (get_object _ "sdp" Hd).
  rewrite guard_type, guard_string. cbn [exn_bind].
  destruct (offer_or_answer _); [|reflexivity].
  destruct (nonempty_string _); reflexivity.
Qed.

Lemma validateICEData_object fs : validateICEData (JObj fs) = Ok (ice_data_ok fs).
Proof.
  unfold validateICEData, ice_data_ok. rewrite guard_object. cbn [exn_bind is_object negb get].
  rewrite !guard_string, guard_candidate. cbn [exn_bind].
  destruct (nonempty_string (field "to" fs)); [|reflexivity].
  destruct (nonempty_string (field "sender" fs)); [|reflexivity].
  destruct (null_or_object _); reflexivity.
Qed.

Lemma validateChatData_object fs : validateChatData (JObj fs) = Ok (chat_data_ok fs).
Proof.
  unfold validateChatData, chat_data_ok. rewrite guard_object. cbn [exn_bind is_object negb get].
  rewrite !guard_string. cbn [exn_bind].
  destruct (nonempty_string (field "room" fs)); [|reflexivity].
  destruct (nonempty_string (field "sender" fs)); [|reflexivity].
  cbn [negb andb].
  destruct (field "msg" fs) as [| |b|n|msg| |]; try reflexivity.
  cbn [nonempty_string]. unfold_validator. simpl. rewrite length_zero.
  destruct (String.eqb msg ""); [reflexivity|].
  destruct (1000 <? _); [reflexivity|].
  destruct (Regex.injection_re msg); reflexivity.
Qed.

Lemma validators_reject_non_objects data :
  is_object data = false ->
  validateRoomData data = Ok false /\ validateSDPData data = Ok false /\
  validateICEData data = Ok false /\ validateChatData data = Ok false.
Proof.
  intros H. unfold validateRoomData, validateSDPData, validateICEData, validateChatData.
  rewrite guard_object, H. repeat split; reflexivity.
Qed.

Lemma validators_reject_arrays items :
  validateRoomData (JArr items) = Ok false /\ validateSDPData (JArr items) = Ok false /\
  validateICEData (JArr items) = Ok false /\ validateChatData (JArr items) = Ok false.
Proof. repeat split; reflexivity. Qed.

(** An accepted payload is an object literal. *)
Lemma accepted_object (validate : jsval -> exn bool) data :
  (is_object data = false -> validate data = Ok false) ->
  (forall items, validate (JArr items) = Ok false) ->
  validate data = Ok true -> exists fs, data = JObj fs.
Proof.
  intros Hno Harr H. destruct data as [| | | | |fs|items]; eauto;
    try (rewrite Hno in H by reflexivity; discriminate).
  rewrite Harr in H. discriminate.
Qed.

Lemma nonempty_string_spec v :
  nonempty_string v = true <-> exists s, v = JStr s /\ s <> "".
Proof.
  split.
  - destruct v as [| | | |s| |]; try discriminate. simpl. intros H.
    exists s. split; [reflexivity|]. apply String.eqb_neq. by destruct (String.eqb s "").
  - intros (s & -> & Hs). simpl. apply String.eqb_neq in Hs. by rewrite Hs.
Qed.

Lemma validateChatData_accepts data :
  validateChatData data = Ok true -> exists fs, data = JObj fs /\ chat_data_ok fs = true.
Proof.
  intros H. assert (exists fs, data = JObj fs) as [fs ->].
  { apply (accepted_object validateChatData); [| |exact H].
    - intros Hobj. apply (validators_reject_non_objects data Hobj).
    - intros items. apply (validators_reject_arrays items). }
  exists fs. rewrite validateChatData_object in H. by injection H.
Qed.

Lemma validateRoomData_accepts data :
  validateRoomData data = Ok true -> exists fs, data = JObj fs /\ room_data_ok fs = true.
Proof.
  intros H. assert (exists fs, data = JObj fs) as [fs ->].
  { apply (accepted_object validateRoomData); [| |exact H].
    - intros Hobj. apply (validators_reject_non_objects data Hobj).
    - intros items. apply (validators_reject_arrays items). }
  exists fs. rewrite validateRoomData_object in H. by injection H.
Qed.

Lemma validateSDPData_accepts data :
  validateSDPData data = Ok true -> exists fs, data = JObj fs /\ sdp_data_ok fs = true.
Proof.
  intros H. assert (exists fs, data = JObj fs) as [fs ->].
  { apply (accepted_object validateSDPData); [| |exact H].
    - intros Hobj. apply (validators_reject_non_objects data Hobj).
    - intros items. apply (validators_reject_arrays items). }
  exists fs. rewrite validateSDPData_object in H. by injection H.
Qed.

(** C10. Each of the four validators returns a boolean on every input value
    and never throws; an input that is not an object (undefined, null,
    boolean, number, string) is rejected by the first guard, before any
    property of it is read. *)
Theorem validators_total (data : jsval) :
  (exists b, validateRoomData data = Ok b) /\
  (exists b, validateSDPData data = Ok b) /\
  (exists b, validateICEData data = Ok b) /\
  (exists b, validateChatData data = Ok b) /\
  (if is_object data then True
   else validateRoomData data = Ok false /\ validateSDPData data = Ok false /\
        validateICEData data = Ok false /\ validateChatData data = Ok false).
Proof.
  destruct (is_object data) eqn:Hobj.
  - destruct data as [| | | | |fs|items]; try discriminate.
    + rewrite validateRoomData_object, validateSDPData_object,
        validateICEData_object, validateChatData_object. repeat split; eauto.
    + destruct (validators_reject_arrays items) as (-> & -> & -> & ->). repeat split; eauto.
  - destruct (validators_reject_non_objects data Hobj) as (-> & -> & -> & ->).
    repeat split; eauto.
Qed.

(** ** Rate limiter *)

Lemma isRateLimited_fresh m c e now :
  m !! limit_key c e = None ->
  isRateLimited m c e now = (false, <[limit_key c e := Window 1 (now + 1000)]> m).
Proof. intros H. unfold isRateLimited. rewrite H. reflexivity. Qed.

Lemma isRateLimited_expired m c e now limit :
  m !! limit_key c e = Some limit -> resetTime limit < now ->
  isRateLimited m c e now = (false, <[limit_key c e := Window 1 (now + 1000)]> m).
Proof.
  intros H Hlt. unfold isRateLimited. rewrite H.
  destruct (Z.gtb_spec now (resetTime limit)); [reflexivity | lia].
Qed.

Lemma isRateLimited_full m c e now limit :
  m !! limit_key c e = Some limit -> now <= resetTime limit -> 10 <= count limit ->
  isRateLimited m c e now = (true, m).
Proof.
  intros H Hle Hc. unfold isRateLimited. rewrite H.
  destruct (Z.gtb_spec now (resetTime limit)); [lia|].
  unfold RATE_LIMIT_MAX_EVENTS. rewrite Z.geb_leb.
  destruct (Z.leb_spec 10 (count limit)); [reflexivity | lia].
Qed.

Lemma isRateLimited_counts m c e now limit :
  m !! limit_key c e = Some limit -> now <= resetTime limit -> count limit < 10 ->
  isRateLimited m c e now
  = (false, <[limit_key c e := Window (count limit + 1) (resetTime limit)]> m).
Proof.
  intros H Hle Hc. unfold isRateLimited. rewrite H.
  destruct (Z.gtb_spec now (resetTime limit)); [lia|].
  unfold RATE_LIMIT_MAX_EVENTS. rewrite Z.geb_leb.
  destruct (Z.leb_spec 10 (count limit)); [lia | reflexivity].
Qed.

(** Inside one window the [i]-th further call sees the count [k + i]. *)
Lemma burst_inside c e r times : forall k m,
  m !! limit_key c e = Some (Window k r) ->
  Forall (fun t => t <= r) times ->
  fst (burst m c e times)
  = List.map (fun i => 10 <=? k + Z.of_nat i) (seq 0 (List.length times)).
Proof.
  induction times as [|t times IH]; intros k m Hm Hall; [reflexivity|].
  inversion Hall as [|? ? Ht Hrest]; subst.
  cbn [burst List.length seq List.map].
  rewrite <- seq_shift, List.map_map.
  destruct (Z.leb_spec 10 (k + Z.of_nat 0)) as [Hk|Hk].
  - rewrite (isRateLimited_full m c e t _ Hm) by (simpl; lia).
    specialize (IH k m Hm Hrest).
    destruct (burst m c e times) as [answers m']. simpl in *. f_equal.
    rewrite IH. apply List.map_ext_in. intros i _.
    destruct (Z.leb_spec 10 (k + Z.of_nat i)), (Z.leb_spec 10 (k + Z.of_nat (S i)));
      try reflexivity; lia.
  - rewrite (isRateLimited_counts m c e t _ Hm) by (simpl; lia). simpl count. simpl resetTime.
    specialize (IH (k + 1) (<[limit_key c e := Window (k + 1) r]> m)
                  (lookup_insert_eq _ _ _) Hrest).
    destruct (burst _ c e times) as [answers m']. simpl in *. f_equal.
    rewrite IH. apply List.map_ext. intros i. f_equal. lia.
Qed.

(** C2, as stated, fails at the boundary: ten chat events at time 0 open a
    window that starts at 0 and fill it; the next event arrives exactly
    1000 ms after the window start and is still rejected, because the window
    only expires when [now > resetTime]. *)
Lemma isRateLimited_boundary_rejected :
  let m := snd (burst ∅ "c" "chat" (replicate 10 0)) in
  m !! limit_key "c" "chat" = Some (Window 10 (0 + 1000)) /\
  0 + 1000 <= 1000 /\
  fst (isRateLimited m "c" "chat" 1000) = true.
Proof. vm_compute. repeat split; congruence. Qed.

(** C2 (amended). The four cases of [isRateLimited] on the window of the key
    built from connection [c] and event [e]; the eleventh event of a burst
    whose later events all arrive no more than 1000 ms after the first is
    rejected; and an event arriving more than 1000 ms after the start of the
    window is admitted whatever the count was. *)
Theorem isRateLimited_window (m : gmap string window) (c e : string) (now : Z) :
  let key := limit_key c e in
  (m !! key = None ->
     isRateLimited m c e now = (false, <[key := Window 1 (now + 1000)]> m)) /\
  (forall limit, m !! key = Some limit -> resetTime limit < now ->
     isRateLimited m c e now = (false, <[key := Window 1 (now + 1000)]> m)) /\
  (forall limit, m !! key = Some limit -> now <= resetTime limit -> 10 <= count limit ->
     isRateLimited m c e now = (true, m)) /\
  (forall limit, m !! key = Some limit -> now <= resetTime limit -> count limit < 10 ->
     isRateLimited m c e now
     = (false, <[key := Window (count limit + 1) (resetTime limit)]> m)) /\
  (forall later, m !! key = None -> List.length later = 10%nat ->
     Forall (fun t => t - now <= 1000) later ->
     fst (burst m c e (now :: later)) = (replicate 10 false ++ [true])%list) /\
  (forall limit, m !! key = Some limit ->
     now - (resetTime limit - RATE_LIMIT_WINDOW) > 1000 ->
     fst (isRateLimited m c e now) = false).
Proof.
  intros key. repeat split.
  - apply isRateLimited_fresh.
  - apply isRateLimited_expired.
  - apply isRateLimited_full.
  - apply isRateLimited_counts.
  - intros later Hm Hlen Hall. cbn [burst].
    rewrite (isRateLimited_fresh m c e now Hm).
    pose proof (burst_inside c e (now + 1000) later 1
                  (<[limit_key c e := Window 1 (now + 1000)]> m)
                  (lookup_insert_eq _ _ _)) as Hin.
    destruct (burst _ c e later) as [answers m']. simpl in *.
    rewrite Hin, Hlen; [reflexivity|].
    eapply Forall_impl; [exact Hall|]. simpl. intros; lia.
  - intros limit Hm Hlate.
    rewrite (isRateLimited_expired m c e now limit Hm); [reflexivity|].
    unfold RATE_LIMIT_WINDOW in Hlate. lia.
Qed.

Lemma isRateLimited_window_witness :
  fst (burst ∅ "c" "chat" (0 :: [100; 200; 300; 400; 500; 600; 700; 800; 900; 1000]))
  = (replicate 10 false ++ [true])%list.
Proof.
  apply (isRateLimited_window ∅ "c" "chat" 0).
  - reflexivity.
  - reflexivity.
  - repeat constructor; simpl; lia.
Defined.

(** ** Sweep of the rate-limit windows *)

Lemma prefix_append a b : String.prefix a (a +:+ b) = true.
Proof.
  induction a as [|ch a IH]; simpl; [destruct b; reflexivity|].
  destruct (ascii_dec ch ch); [exact IH | congruence].
Qed.

Lemma append_assoc (a b c : string) : (a +:+ b) +:+ c = a +:+ (b +:+ c).
Proof.
  induction a as [|ch a IH]; [reflexivity|].
  change (String ch ((a +:+ b) +:+ c) = String ch (a +:+ (b +:+ c))).
  by rewrite IH.
Qed.

Lemma foldl_delete_lookup (ks : list string) : forall (m : gmap string window) k,
  foldl (fun acc key => delete key acc) m ks !! k
  = if bool_decide (k ∈ ks) then None else m !! k.
Proof.
  induction ks as [|key ks IH]; intros m k; cbn [foldl].
  - case_bool_decide as Hin; [|reflexivity]. by apply elem_of_nil in Hin.
  - rewrite IH. repeat case_bool_decide; try reflexivity.
    + exfalso. set_solver.
    + destruct (decide (k = key)) as [->|Hne].
      * apply lookup_delete_eq.
      * exfalso. set_solver.
    + apply lookup_delete_ne. set_solver.
Qed.

Lemma keysToDelete_spec m id k :
  k ∈ keysToDelete m id <-> String.prefix id k = true /\ is_Some (m !! k).
Proof.
  unfold keysToDelete. rewrite list_elem_of_In, filter_In, in_map_iff. split.
  - intros [[[k' v] [Hk Hin]] Hp]. simpl in Hk. subst k'. split; [exact Hp|].
    apply list_elem_of_In, elem_of_map_to_list in Hin. eauto.
  - intros [Hp [v Hv]]. split; [|exact Hp].
    exists (k, v). split; [reflexivity|].
    by apply list_elem_of_In, elem_of_map_to_list.
Qed.

Lemma sweep_lookup m id k :
  sweep m id !! k = if String.prefix id k then None else m !! k.
Proof.
  unfold sweep. rewrite foldl_delete_lookup.
  destruct (decide (k ∈ keysToDelete m id)) as [Hin|Hin].
  - rewrite bool_decide_eq_true_2 by done.
    apply keysToDelete_spec in Hin as [-> _]. reflexivity.
  - rewrite bool_decide_eq_false_2 by done.
    destruct (String.prefix id k) eqn:Hp; [|reflexivity].
    destruct (m !! k) eqn:Hk; [|reflexivity].
    exfalso. apply Hin, keysToDelete_spec. eauto.
Qed.

(** ** Reasoning about handlers *)

Ltac unfold_handler :=
  unfold stream, on_subscribe, on_newUserStart, on_sdp, on_ice_candidates, on_chat,
    on_leaveRoom, on_disconnect, on_error, getRoomSize, rooms_has, rooms_get,
    socket_join, socket_leave, socket_to_emit, socket_emit, logger, call,
    rate_limited, try_catch, M_bind, M_ret, modify, gets, lift, throw.

(** Rules for [preserves], for a reflexive and transitive relation. *)
Section Preserves.

Variable R : world -> world -> Prop.
Hypothesis R_refl : forall w, R w w.
Hypothesis R_trans : forall w1 w2 w3, R w1 w2 -> R w2 w3 -> R w1 w3.

Lemma preserves_ret {A} (a : A) : preserves R (M_ret a).
Proof. intros w. apply R_refl. Qed.

Lemma preserves_throw {A} err : preserves R (@throw A err).
Proof. intros w. apply R_refl. Qed.

Lemma preserves_gets {A} (f : world -> A) : preserves R (gets f).
Proof. intros w. apply R_refl. Qed.

Lemma preserves_lift {A} (e : exn A) : preserves R (lift e).
Proof. destruct e; [apply preserves_ret | apply preserves_throw]. Qed.

Lemma preserves_modify f : (forall w, R w (f w)) -> preserves R (modify f).
Proof. intros H w. apply H. Qed.

Lemma preserves_bind {A B} (m : M A) (k : A -> M B) :
  preserves R m -> (forall a, preserves R (k a)) -> preserves R (M_bind m k).
Proof.
  intros Hm Hk w. unfold M_bind. specialize (Hm w).
  destruct (m w) as [a w'|e w']; [|exact Hm].
  eapply R_trans; [exact Hm | apply Hk].
Qed.

Lemma preserves_try_catch {A} (body : M A) (handler : string -> M A) :
  preserves R body -> (forall e, preserves R (handler e)) -> preserves R (try_catch body handler).
Proof.
  intros Hb Hh w. unfold try_catch. specialize (Hb w).
  destruct (body w) as [a w'|e w']; [exact Hb|].
  eapply R_trans; [exact Hb | apply Hh].
Qed.

Lemma preserves_call faulty o : preserves R (call faulty o).
Proof. intros w. unfold call. destruct (faulty o); apply R_refl. Qed.

Lemma preserves_forEach {A} (f : A -> M unit) l :
  (forall x, preserves R (f x)) -> preserves R (forEach f l).
Proof.
  intros Hf. induction l as [|x l IH]; simpl.
  - apply preserves_ret.
  - apply preserves_bind; [apply Hf | intros _; exact IH].
Qed.

End Preserves.

Create HintDb preserves.

(** Breaks a handler into its calls, leaving the state-changing ones. *)
Ltac preserves_step :=
  first
    [ apply preserves_ret; solve [eauto with preserves]
    | apply preserves_gets; solve [eauto with preserves]
    | apply preserves_lift; solve [eauto with preserves]
    | apply preserves_call; solve [eauto with preserves]
    | apply preserves_bind; [solve [eauto with preserves] | | intros ?]
    | apply preserves_try_catch; [solve [eauto with preserves] | | intros ?]
    | apply preserves_forEach;
        [solve [eauto with preserves] | solve [eauto with preserves] | intros ?]
    | match goal with
      | |- preserves _ (if ?b then _ else _) => destruct b
      | |- preserves _ (match ?x with _ => _ end) => destruct x
      end ].

(** ** Room broadcasts and their sender *)

Lemma sends_sparing_refl id w : sends_sparing id w w.
Proof. intros H. split; [exact H|]. exists []. split; [by rewrite app_nil_r | constructor]. Qed.

Lemma sends_sparing_trans id w1 w2 w3 :
  sends_sparing id w1 w2 -> sends_sparing id w2 w3 -> sends_sparing id w1 w3.
Proof.
  intros H12 H23 H1. destruct (H12 H1) as (H2 & n1 & E1 & F1).
  destruct (H23 H2) as (H3 & n2 & E2 & F2). split; [exact H3|].
  exists (n1 ++ n2)%list. split.
  - by rewrite E2, E1, app_assoc.
  - by apply Forall_app.
Qed.

#[local] Hint Resolve sends_sparing_refl sends_sparing_trans : preserves.

Lemma audience_string rs r : audience rs (JStr r) = members rs r.
Proof. unfold audience. simpl. apply union_empty_r_L. Qed.

Lemma to_recipients_string w id r :
  to_recipients w id (JStr r) = members (rooms w) r ∖ members (rooms w) id.
Proof. unfold to_recipients. by rewrite audience_string. Qed.

Lemma members_add_member id r rs R :
  members (add_member id r rs) R
  = if decide (r = R) then {[id]} ∪ members rs R else members rs R.
Proof.
  unfold add_member, members at 1. destruct (decide (r = R)) as [->|Hne].
  - by rewrite lookup_insert_eq.
  - by rewrite lookup_insert_ne.
Qed.

Lemma members_remove_member id r rs R :
  members (remove_member id r rs) R
  = if decide (r = R) then members rs R ∖ {[id]} else members rs R.
Proof.
  unfold remove_member, members. destruct (decide (r = R)) as [->|Hne].
  - destruct (rs !! R) as [s|] eqn:E; simpl.
    + destruct (decide (s ∖ {[id]} = ∅)) as [He|He].
      * by rewrite lookup_delete_eq, He.
      * by rewrite lookup_insert_eq.
    + rewrite E. simpl. set_solver.
  - destruct (rs !! r) as [s|] eqn:E; [|reflexivity].
    destruct (decide (s ∖ {[id]} = ∅)).
    + by rewrite lookup_delete_ne.
    + by rewrite lookup_insert_ne.
Qed.

Lemma members_del_all_subseteq id names R : forall rs,
  members (foldr (remove_member id) rs names) R ⊆ members rs R.
Proof.
  induction names as [|r names IH]; intros rs; simpl; [done|].
  rewrite members_remove_member. specialize (IH rs).
  destruct (decide (r = R)); set_solver.
Qed.

Lemma members_add_member_subseteq id r rs R :
  members rs R ⊆ members (add_member id r rs) R.
Proof.
  unfold add_member, members at 2. destruct (decide (r = R)) as [->|Hne].
  - rewrite lookup_insert_eq. simpl. set_solver.
  - by rewrite lookup_insert_ne.
Qed.

Lemma members_join_subseteq id names R : forall rs,
  members rs R ⊆ members (foldl (fun acc r => add_member id r acc) rs names) R.
Proof.
  induction names as [|r names IH]; intros rs; simpl; [done|].
  etrans; [apply (members_add_member_subseteq id r)|apply IH].
Qed.

Section Sparing.

Variable faulty : op -> bool.
Variable MAX_ROOM_SIZE : nat.
Variable id : string.

Lemma sparing_quiet (f : world -> world) :
  (forall w, sent (f w) = sent w) -> (forall w, rooms (f w) = rooms w) ->
  preserves (sends_sparing id) (modify f).
Proof.
  intros Hs Hr. apply preserves_modify. intros w Hw. unfold in_own_room. simpl.
  rewrite Hr. split; [exact Hw|]. exists [].
  split; [by rewrite Hs, app_nil_r | constructor].
Qed.

Lemma sparing_logger l msg : preserves (sends_sparing id) (logger faulty l msg).
Proof.
  unfold logger. apply preserves_bind;
    [apply sends_sparing_trans | apply preserves_call, sends_sparing_refl | intros _].
  by apply sparing_quiet.
Qed.

Lemma sparing_rate_limited ev now : preserves (sends_sparing id) (rate_limited id ev now).
Proof.
  intros w. unfold rate_limited. destruct (isRateLimited _ _ _ _). exact (sends_sparing_refl id w).
Qed.

Lemma sparing_socket_join room : preserves (sends_sparing id) (socket_join faulty id room).
Proof.
  unfold socket_join. apply preserves_bind;
    [apply sends_sparing_trans | apply preserves_call, sends_sparing_refl | intros _].
  apply preserves_bind; [apply sends_sparing_trans | | intros _; by apply sparing_quiet].
  apply preserves_modify. intros w Hw. split.
  - unfold in_own_room. simpl. by apply members_join_subseteq.
  - exists []. split; [by rewrite app_nil_r | constructor].
Qed.

Lemma sparing_socket_emit_error data :
  preserves (sends_sparing id) (socket_emit faulty id "error" data).
Proof.
  unfold socket_emit. apply preserves_bind;
    [apply sends_sparing_trans | apply preserves_call, sends_sparing_refl | intros _].
  apply preserves_modify. intros w Hw. split; [exact Hw|].
  eexists. split; [reflexivity|].
  constructor; [|constructor]. intros Hev. simpl in Hev. exfalso.
  unfold room_broadcasts in Hev. set_solver.
Qed.

Lemma sparing_socket_to_emit target ev data :
  preserves (sends_sparing id) (socket_to_emit faulty id target ev data).
Proof.
  unfold socket_to_emit. apply preserves_bind;
    [apply sends_sparing_trans | apply preserves_call, sends_sparing_refl | intros _].
  apply preserves_modify. intros w Hw. split; [exact Hw|].
  eexists. split; [reflexivity|].
  constructor; [|constructor]. intros _. simpl. unfold to_recipients.
  unfold in_own_room in Hw. set_solver.
Qed.

Lemma sparing_sweep : preserves (sends_sparing id)
  (modify (fun w => set_rateLimitMap (sweep (rateLimitMap w) id) w)).
Proof. by apply sparing_quiet. Qed.

(** The handlers that do not leave a room. *)
Lemma stream_sends_sparing ev now :
  match ev with
  | LeaveRoom _ => True
  | _ => preserves (sends_sparing id) (stream faulty MAX_ROOM_SIZE id ev now)
  end.
Proof.
  destruct ev; try exact I;
    unfold stream, on_subscribe, on_newUserStart, on_sdp, on_ice_candidates,
    on_chat, on_disconnect, on_error, getRoomSize, rooms_has, rooms_get;
  repeat first
    [ apply sparing_logger | apply sparing_rate_limited | apply sparing_socket_join
    | apply sparing_socket_emit_error
    | apply sparing_socket_to_emit | apply sparing_sweep
    | preserves_step ].
Qed.

(** After [socket.leave(room)] the 'userLeft' notice to the same [room] does
    not come back: the socket is still in its own room, or that is the room
    it left and the notice goes to nobody. *)
Lemma leave_then_notify_spares room rs ss rl snt lg :
  id ∈ members rs id ->
  id ∉ to_recipients
         (World (match room with JStr r => remove_member id r rs | _ => rs end)
                ss rl snt lg) id room.
Proof.
  intros Hown. unfold to_recipients. cbn [rooms sids].
  assert (forall X : gset string, id ∉ X ∖ members rs id) as Hout
    by (intros X [_ H]%elem_of_difference; exact (H Hown)).
  destruct room as [| | | |r| |items]; try apply Hout.
  rewrite audience_string. rewrite !members_remove_member.
  destruct (decide (r = id)) as [->|Hne].
  - rewrite decide_True by reflexivity.
    intros [H1 H2]%elem_of_difference. exact (H2 H1).
  - apply Hout.
Qed.

Lemma on_leaveRoom_spares data now w :
  in_own_room id w ->
  exists new,
    sent (world_of (stream faulty MAX_ROOM_SIZE id (LeaveRoom data) now w))
    = (sent w ++ new)%list /\ Forall (spares_sender id) new.
Proof.
  intros Hown. destruct w as [rs ss rl snt lg]. unfold in_own_room in Hown. cbn in Hown.
  unfold_handler. unfold set_rooms, set_sids, push_sent, push_logged.
  assert (forall l : list emission, exists new, l = (l ++ new)%list /\ Forall (spares_sender id) new)
    as Hnone by (intros l; exists []; split; [by rewrite app_nil_r | constructor]).
  destruct (has_room data) as [[|]|err]; cbn; try apply Hnone;
    try (destruct (faulty OpLog); cbn; apply Hnone).
  destruct (data.["room"]) as [room|err]; cbn;
    [|destruct (faulty OpLog); cbn; apply Hnone].
  destruct (faulty OpLeave); cbn; [destruct (faulty OpLog); cbn; apply Hnone|].
  destruct (faulty OpBroadcast); cbn; [destruct (faulty OpLog); cbn; apply Hnone|].
  assert (exists new,
            (snt ++ [Emission
                       (to_recipients
                          (World (match room with JStr r => remove_member id r rs | _ => rs end)
                             (match room with JStr r => note_left id r ss | _ => ss end)
                             rl snt lg) id room) "userLeft"
                       (JObj [("socketId", JStr id); ("timestamp", JNum now)])])%list
            = (snt ++ new)%list /\ Forall (spares_sender id) new) as Hone.
  { eexists. split; [reflexivity|]. constructor; [|constructor]. intros _.
    cbn [recipients]. by apply leave_then_notify_spares. }
  destruct (faulty OpLog); cbn; exact Hone.
Qed.

End Sparing.

(** While a connection is in the room named by its own identifier, no
    handler run for it addresses a room broadcast to it, whatever calls
    fail. *)
Lemma own_room_spares_sender (faulty : op -> bool) (MAX_ROOM_SIZE : nat)
    (C : string) (ev : inbound) (now : Z) (w : world) :
  in_own_room C w ->
  exists new,
    sent (world_of (stream faulty MAX_ROOM_SIZE C ev now w)) = (sent w ++ new)%list /\
    forall e, e ∈ new -> event e ∈ room_broadcasts -> C ∉ recipients e.
Proof.
  intros Hown.
  assert (exists new,
            sent (world_of (stream faulty MAX_ROOM_SIZE C ev now w)) = (sent w ++ new)%list /\
            Forall (spares_sender C) new) as (new & E & F).
  { pose proof (stream_sends_sparing faulty MAX_ROOM_SIZE C ev now) as H.
    destruct ev; try (destruct (H w Hown) as (_ & new & E & F); eauto; fail).
    by apply on_leaveRoom_spares. }
  exists new. split; [exact E|]. intros e He. rewrite Forall_forall in F. by apply F.
Qed.

(** A chat that is admitted and valid, in the fault-free environment. *)
Lemma on_chat_accepted (MAX_ROOM_SIZE : nat) (id : string) (data : jsval)
    (now : Z) (w : world) (m' : gmap string window) :
  isRateLimited (rateLimitMap w) id "chat" now = (false, m') ->
  validateChatData data = Ok true ->
  exists fs room sender msg,
    data = JObj fs /\ field "room" fs = JStr room /\
    field "sender" fs = JStr sender /\ field "msg" fs = JStr msg /\
    stream no_fault MAX_ROOM_SIZE id (Chat data) now w
    = Done tt (World (rooms w) (sids w) m'
         (sent w ++ [Emission (members (rooms w) room ∖ members (rooms w) id) "chat"
                       (JObj [("sender", JStr sender); ("msg", JStr msg);
                              ("timestamp", JNum now)])])
         (logged w ++ [(LDebug, "Chat message sent")])).
Proof.
  intros Hrl Hv.
  destruct (validateChatData_accepts data Hv) as (fs & -> & Hok).
  unfold chat_data_ok in Hok. apply andb_true_iff in Hok as [Hok Hmsg].
  apply andb_true_iff in Hok as [Hr Hs].
  apply nonempty_string_spec in Hr as (room & Hr & _), Hs as (sender & Hs & _).
  destruct (field "msg" fs) as [| | | |msg| |] eqn:Hm; try discriminate.
  exists fs, room, sender, msg. repeat split; try assumption.
  unfold_handler. rewrite Hrl. cbn [no_fault negb]. rewrite Hv. cbn.
  rewrite Hr, Hs, Hm. unfold to_recipients. cbn. rewrite union_empty_r_L. reflexivity.
Qed.

(** C3. The sender is kept out of a room broadcast only through the room
    named by its own identifier. A connection C that has left that room
    (the leaveRoom handler leaves whatever room the payload names) and is a
    member of room [room] receives its own 'chat' broadcast to [room]: the
    recipient set contains C. *)
Theorem sender_receives_own_broadcast (MAX_ROOM_SIZE : nat) (C room : string)
    (fs : list (string * jsval)) (now : Z) (w : world) (m' : gmap string window) :
  isRateLimited (rateLimitMap w) C "chat" now = (false, m') ->
  validateChatData (JObj fs) = Ok true ->
  field "room" fs = JStr room ->
  C ∈ members (rooms w) room ->
  ~ in_own_room C w ->
  exists e,
    sent (world_of (stream no_fault MAX_ROOM_SIZE C (Chat (JObj fs)) now w))
    = (sent w ++ [e])%list /\
    event e = "chat" /\ C ∈ recipients e.
Proof.
  intros Hrl Hv Hroom Hin Hout.
  destruct (on_chat_accepted MAX_ROOM_SIZE C (JObj fs) now w m' Hrl Hv)
    as (fs' & room' & sender & msg & Hfs & Hr & _ & _ & ->).
  injection Hfs as <-. rewrite Hroom in Hr. injection Hr as <-.
  eexists. split; [reflexivity|]. split; [reflexivity|].
  cbn [recipients]. apply elem_of_difference. split; [exact Hin | exact Hout].
Qed.

Lemma sender_receives_own_broadcast_witness :
  let w := run 10 start
             [Connect "C"; Connect "D";
              Deliver "C" (subscribe_to "r1" "pC") 0;
              Deliver "D" (subscribe_to "r1" "pD") 1;
              Deliver "C" (LeaveRoom (JObj [("room", JStr "C")])) 2] in
  let data := [("room", JStr "r1"); ("sender", JStr "pC"); ("msg", JStr "hi")] in
  exists e,
    sent (world_of (stream no_fault 10 "C" (Chat (JObj data)) 3 w)) = (sent w ++ [e])%list /\
    event e = "chat" /\ "C" ∈ recipients e.
Proof.
  apply (sender_receives_own_broadcast 10 "C" "r1"
           [("room", JStr "r1"); ("sender", JStr "pC"); ("msg", JStr "hi")] 3
           (run 10 start
              [Connect "C"; Connect "D";
               Deliver "C" (subscribe_to "r1" "pC") 0;
               Deliver "D" (subscribe_to "r1" "pD") 1;
               Deliver "C" (LeaveRoom (JObj [("room", JStr "C")])) 2])
           (<[limit_key "C" "chat" := Window 1 (3 + 1000)]>
              (<[limit_key "D" "subscribe" := Window 1 (1 + 1000)]>
                 (<[limit_key "C" "subscribe" := Window 1 (0 + 1000)]> ∅)))).
  - vm_compute. reflexivity.
  - reflexivity.
  - reflexivity.
  - vm_compute. set_solver.
  - vm_compute. set_solver.
Defined.

(** The same after a subscribe: having left its own room, the connection is
    among the recipients of the 'new user' notice of its own arrival and of
    its own chat message. *)
Example left_own_room_receives_own_messages :
  let w := run 10 start
             [Connect "C"; Connect "D";
              Deliver "D" (subscribe_to "r1" "pD") 0;
              Deliver "C" (LeaveRoom (JObj [("room", JStr "C")])) 1;
              Deliver "C" (subscribe_to "r1" "pC") 2;
              Deliver "C" (Chat (JObj [("room", JStr "r1"); ("sender", JStr "pC");
                                       ("msg", JStr "hi")])) 3] in
  sent w
  = [Emission ∅ "new user" (JObj [("socketId", JStr "pD"); ("timestamp", JNum 0)]);
     Emission ∅ "userLeft" (JObj [("socketId", JStr "C"); ("timestamp", JNum 1)]);
     Emission {[ "C"; "D" ]} "new user" (JObj [("socketId", JStr "pC"); ("timestamp", JNum 2)]);
     Emission {[ "C"; "D" ]} "chat"
       (JObj [("sender", JStr "pC"); ("msg", JStr "hi"); ("timestamp", JNum 3)])].
Proof. vm_compute. reflexivity. Qed.

(** ** Faults inside a handler *)

Lemma returns_bind {A B} (m : M A) (k : A -> M B) :
  returns m -> (forall a, returns (k a)) -> returns (M_bind m k).
Proof.
  intros Hm Hk w. unfold M_bind. destruct (Hm w) as (a & w' & ->). apply Hk.
Qed.

Lemma returns_try_catch {A} (body : M A) (handler : string -> M A) :
  (forall e, returns (handler e)) -> returns (try_catch body handler).
Proof.
  intros Hh w. unfold try_catch. destruct (body w) as [a w'|e w']; [eauto|apply Hh].
Qed.

Lemma returns_logger faulty l msg : faulty OpLog = false -> returns (logger faulty l msg).
Proof. intros H w. unfold_handler. rewrite H. eauto. Qed.

Lemma returns_socket_emit faulty id ev data :
  faulty OpEmit = false -> returns (socket_emit faulty id ev data).
Proof. intros H w. unfold_handler. rewrite H. eauto. Qed.

(** The six handlers whose body is a [try] block: as long as the logger and
    [socket.emit] used by the [catch] block work, no fault leaves them. *)
Lemma wrapped_handlers_return faulty MAX_ROOM_SIZE id ev now :
  faulty OpLog = false -> faulty OpEmit = false ->
  match ev with
  | Disconnect _ | SocketError _ => True
  | _ => returns (stream faulty MAX_ROOM_SIZE id ev now)
  end.
Proof.
  intros Hlog Hemit.
  destruct ev; try exact I; apply returns_try_catch; intros e;
    repeat first [ apply returns_logger; assumption
                 | apply returns_socket_emit; assumption
                 | apply returns_bind; [|intros ?] ].
Qed.

(** C5. Two handlers registered by [stream] have no [try]/[catch], and a
    fault raised in them leaves the handler. An 'error' event whose payload
    is [null] or [undefined] throws a TypeError, [error.message] being read
    unguarded; and a fault of the logger on 'disconnect' escapes, whatever
    [socket.rooms] holds. Nothing is logged or sent in either case. The six
    other handlers return for every payload and every fault of the adapter,
    as long as the logger and [socket.emit] of their [catch] block work. *)
Theorem unwrapped_handlers_throw (faulty : op -> bool) (MAX_ROOM_SIZE : nat)
    (id : string) (now : Z) (w : world) :
  stream faulty MAX_ROOM_SIZE id (SocketError JNull) now w
  = Thrown "TypeError: Cannot read properties of null" w /\
  stream faulty MAX_ROOM_SIZE id (SocketError JUndefined) now w
  = Thrown "TypeError: Cannot read properties of undefined" w /\
  (forall socket_rooms, faulty OpLog = true ->
     stream faulty MAX_ROOM_SIZE id (Disconnect socket_rooms) now w
     = Thrown "internal fault" w) /\
  (faulty OpLog = false -> faulty OpEmit = false ->
   forall data,
     Forall (fun ev => exists w', stream faulty MAX_ROOM_SIZE id ev now w = Done tt w')
       [Subscribe data; NewUserStart data; Sdp data; IceCandidates data;
        Chat data; LeaveRoom data]).
Proof.
  split; [reflexivity|]. split; [reflexivity|]. split.
  - intros socket_rooms Hlog. unfold stream, on_disconnect, logger, call, M_bind.
    by rewrite Hlog.
  - intros Hlog Hemit data.
    repeat (constructor;
            [match goal with
             | |- exists w', stream _ _ _ ?ev _ _ = _ =>
                 destruct (wrapped_handlers_return faulty MAX_ROOM_SIZE id ev now
                             Hlog Hemit w) as ([] & w' & ->); by exists w'
             end|]).
    constructor.
Qed.

Lemma unwrapped_handlers_throw_witness :
  let w := run 10 start [Connect "C"] in
  stream logger_fails 10 "C" (SocketError JNull) 7 w
  = Thrown "TypeError: Cannot read properties of null" w /\
  stream logger_fails 10 "C" (Disconnect []) 7 (del_all "C" w)
  = Thrown "internal fault" (del_all "C" w) /\
  exists w', stream no_fault 10 "C" (LeaveRoom JNull) 7 w = Done tt w'.
Proof.
  split; [|split].
  - apply (unwrapped_handlers_throw logger_fails 10 "C" 7 (run 10 start [Connect "C"])).
  - apply (unwrapped_handlers_throw logger_fails 10 "C" 7
             (del_all "C" (run 10 start [Connect "C"]))). reflexivity.
  - destruct (unwrapped_handlers_throw no_fault 10 "C" 7 (run 10 start [Connect "C"]))
      as (_ & _ & _ & H).
    specialize (H eq_refl eq_refl JNull).
    rewrite Forall_forall in H. apply H. set_solver.
Defined.

(** ** Rejections, forwarding and cleanup in the fault-free environment *)

(** C6. In the fault-free environment, when the rate limiter or the
    validation step rejects an event: 'newUserStart', 'sdp' and
    'ice candidates' emit nothing at all; 'subscribe' and 'chat' emit exactly
    one message, an 'error' event carrying a message string, addressed to the
    sending connection alone. No room changes in either case. *)
Theorem rejection_surfacing (MAX_ROOM_SIZE : nat) (id : string) (ev : inbound)
    (now : Z) (w : world) :
  fst (isRateLimited (rateLimitMap w) id (event_name ev) now) = true \/
  validation ev = Ok false ->
  let w' := world_of (stream no_fault MAX_ROOM_SIZE id ev now w) in
  match ev with
  | NewUserStart _ | Sdp _ | IceCandidates _ =>
      sent w' = sent w /\ rooms w' = rooms w
  | Subscribe _ | Chat _ =>
      (exists text, sent w' = (sent w ++ [Emission {[id]} "error" (JObj [("message", JStr text)])])%list) /\
      rooms w' = rooms w
  | LeaveRoom _ | Disconnect _ | SocketError _ => True
  end.
Proof.
  intros H. destruct ev as [data|data|data|data|data|data|rs|err]; try exact I;
    cbn [event_name validation] in H;
    match type of H with
    | context [isRateLimited ?m ?i ?e ?n] =>
        destruct (isRateLimited m i e n) as [limited m'] eqn:Hrl
    end;
    cbn [fst] in H; unfold_handler; rewrite Hrl;
    (destruct limited;
     [ cbn; eauto
     | destruct H as [H|H]; [discriminate|] ]).
  - rewrite H. cbn. eauto.
  - destruct (newUserStart_invalid data) as [[|]|]; try discriminate. cbn. eauto.
  - rewrite H. cbn. eauto.
  - rewrite H. cbn. eauto.
  - rewrite H. cbn. eauto.
Qed.

Lemma rejection_surfacing_witness :
  let w := World ∅ ∅ ∅ [] [] in
  let w' := world_of (stream no_fault 10 "C"
                        (Chat (JObj [("room", JStr "r1"); ("sender", JStr "C");
                                     ("msg", JStr "<script>alert(1)</script>")])) 0 w) in
  (exists text, sent w' = (sent w ++ [Emission {[ "C" ]} "error" (JObj [("message", JStr text)])])%list) /\
  rooms w' = rooms w.
Proof.
  apply (rejection_surfacing 10 "C"
           (Chat (JObj [("room", JStr "r1"); ("sender", JStr "C");
                        ("msg", JStr "<script>alert(1)</script>")])) 0 (World ∅ ∅ ∅ [] [])).
  right. reflexivity.
Defined.

Lemma sdp_data_ok_strings fs :
  sdp_data_ok fs = true ->
  exists t s, field "to" fs = JStr t /\ field "sender" fs = JStr s.
Proof.
  unfold sdp_data_ok. intros H.
  destruct (field "to" fs) as [| | | |t| |]; try discriminate.
  destruct (field "sender" fs) as [| | | |s| |]; try (rewrite andb_false_r in H; discriminate).
  eauto.
Qed.

(** C7. An sdp payload admitted by the rate limiter and accepted by
    [validateSDPData] is an object whose [to] and [sender] are strings; the
    handler emits one 'sdp' message to the members of the room named [to]
    outside the sender's own room. Its payload has the fields [description]
    and [sender], holding the values of the input, followed by [timestamp],
    the server's clock; nothing else is emitted and no room changes. *)
Theorem sdp_forwarded_verbatim (MAX_ROOM_SIZE : nat) (id : string) (data : jsval)
    (now : Z) (w : world) (m' : gmap string window) :
  isRateLimited (rateLimitMap w) id "sdp" now = (false, m') ->
  validateSDPData data = Ok true ->
  exists fs t s,
    data = JObj fs /\ field "to" fs = JStr t /\ field "sender" fs = JStr s /\
    stream no_fault MAX_ROOM_SIZE id (Sdp data) now w
    = Done tt (World (rooms w) (sids w) m'
         (sent w ++ [Emission (members (rooms w) t ∖ members (rooms w) id) "sdp"
                       (JObj [("description", field "description" fs);
                              ("sender", JStr s);
                              ("timestamp", JNum now)])])
         (logged w ++ [(LDebug, "SDP exchange")])).
Proof.
  intros Hrl Hok.
  destruct (validateSDPData_accepts data Hok) as (fs & -> & Hfs). clear Hok.
  rename Hfs into Hok.
  destruct (sdp_data_ok_strings fs Hok) as (t & s & Ht & Hs).
  exists fs, t, s. repeat split; try assumption.
  unfold_handler. rewrite Hrl. cbn [no_fault negb].
  rewrite validateSDPData_object, Hok. cbn. rewrite Ht, Hs, to_recipients_string. reflexivity.
Qed.

Lemma sdp_forwarded_verbatim_witness :
  let offer := JObj [("type", JStr "offer"); ("sdp", JStr "v=0")] in
  let w := World {[ "B" := {[ "sockB" ]} ]} ∅ ∅ [] [] in
  exists fs t s,
    JObj [("to", JStr "B"); ("sender", JStr "A"); ("description", offer)] = JObj fs /\
    field "to" fs = JStr t /\ field "sender" fs = JStr s /\
    stream no_fault 10 "sockA"
      (Sdp (JObj [("to", JStr "B"); ("sender", JStr "A"); ("description", offer)])) 7 w
    = Done tt (World (rooms w) (sids w)
         (<[limit_key "sockA" "sdp" := Window 1 (7 + 1000)]> ∅)
         (sent w ++ [Emission (members (rooms w) t ∖ members (rooms w) "sockA") "sdp"
                       (JObj [("description", field "description" fs);
                              ("sender", JStr s);
                              ("timestamp", JNum 7)])])
         (logged w ++ [(LDebug, "SDP exchange")])).
Proof.
  apply (sdp_forwarded_verbatim 10 "sockA"
           (JObj [("to", JStr "B"); ("sender", JStr "A");
                  ("description", JObj [("type", JStr "offer"); ("sdp", JStr "v=0")])])
           7 (World {[ "B" := {[ "sockB" ]} ]} ∅ ∅ [] [])).
  - reflexivity.
  - reflexivity.
Defined.

Lemma ice_data_ok_candidate fs t s :
  field "to" fs = JStr t -> t <> "" -> field "sender" fs = JStr s -> s <> "" ->
  ice_data_ok fs = null_or_object (field "candidate" fs).
Proof.
  intros Ht Hto Hs Hsn. unfold ice_data_ok. rewrite Ht, Hs. simpl.
  apply String.eqb_neq in Hto, Hsn. rewrite Hto, Hsn. reflexivity.
Qed.

(** C8. For an 'ice candidates' payload whose [to] and [sender] are
    non-empty strings, [validateICEData] accepts exactly when [candidate] is
    null or an object (an array included): an absent candidate, a string, a
    number and a boolean are rejected. Once the rate limiter admits the
    event, an accepted payload is forwarded to the members of the room named
    [to] outside the sender's own room with the candidate as received, so a
    null candidate arrives as null; a rejected payload is dropped. *)
Theorem ice_candidate_shapes (fs : list (string * jsval)) (t s : string) :
  field "to" fs = JStr t -> t <> "" -> field "sender" fs = JStr s -> s <> "" ->
  validateICEData (JObj fs)
  = Ok match field "candidate" fs with
       | JNull | JObj _ | JArr _ => true
       | JUndefined | JBool _ | JNum _ | JStr _ => false
       end /\
  forall MAX_ROOM_SIZE id now w m',
    isRateLimited (rateLimitMap w) id "ice candidates" now = (false, m') ->
    stream no_fault MAX_ROOM_SIZE id (IceCandidates (JObj fs)) now w
    = match field "candidate" fs with
      | JNull | JObj _ | JArr _ =>
          Done tt (World (rooms w) (sids w) m'
            (sent w ++ [Emission (members (rooms w) t ∖ members (rooms w) id) "ice candidates"
                          (JObj [("candidate", field "candidate" fs);
                                 ("sender", JStr s);
                                 ("timestamp", JNum now)])])
            (logged w ++ [(LDebug, "ICE candidates exchange")]))
      | JUndefined | JBool _ | JNum _ | JStr _ =>
          Done tt (World (rooms w) (sids w) m' (sent w)
            (logged w ++ [(LWarn, "Invalid ICE candidate data received")]))
      end.
Proof.
  intros Ht Hto Hs Hsn.
  pose proof (ice_data_ok_candidate fs t s Ht Hto Hs Hsn) as Hok.
  split.
  - rewrite validateICEData_object, Hok. destruct (field "candidate" fs); reflexivity.
  - intros MAX_ROOM_SIZE id now w m' Hrl.
    unfold_handler. rewrite Hrl. cbn [no_fault negb].
    rewrite validateICEData_object, Hok.
    destruct (field "candidate" fs) eqn:Hc; cbn; rewrite ?Ht, ?Hs, ?Hc, ?to_recipients_string;
      reflexivity.
Qed.

Lemma ice_candidate_shapes_witness :
  let fs := [("to", JStr "B"); ("sender", JStr "A"); ("candidate", JNull)] in
  let w := World {[ "B" := {[ "sockB" ]} ]} ∅ ∅ [] [] in
  validateICEData (JObj fs) = Ok true /\
  stream no_fault 10 "sockA" (IceCandidates (JObj fs)) 7 w
  = Done tt (World (rooms w) (sids w) (<[limit_key "sockA" "ice candidates" := Window 1 (7 + 1000)]> ∅)
       (sent w ++ [Emission (members (rooms w) "B" ∖ members (rooms w) "sockA") "ice candidates"
                     (JObj [("candidate", JNull); ("sender", JStr "A");
                            ("timestamp", JNum 7)])])
       (logged w ++ [(LDebug, "ICE candidates exchange")])).
Proof.
  destruct (ice_candidate_shapes
              [("to", JStr "B"); ("sender", JStr "A"); ("candidate", JNull)] "B" "A")
    as [Hv Hf]; try reflexivity; try discriminate.
  split; [exact Hv|].
  apply (Hf 10%nat "sockA" 7 (World {[ "B" := {[ "sockB" ]} ]} ∅ ∅ [] [])). reflexivity.
Defined.

Lemma socket_to_emit_same_windows faulty id target ev data :
  preserves same_windows (socket_to_emit faulty id target ev data).
Proof.
  intros w. unfold same_windows, socket_to_emit, call, modify, M_bind.
  destruct (faulty OpBroadcast); reflexivity.
Qed.

Lemma on_disconnect_windows MAX_ROOM_SIZE id socket_rooms now w :
  rateLimitMap (world_of (stream no_fault MAX_ROOM_SIZE id (Disconnect socket_rooms) now w))
  = sweep (rateLimitMap w) id.
Proof.
  unfold stream, on_disconnect, logger, call, modify, M_bind. cbn [no_fault].
  match goal with
  | |- rateLimitMap (world_of (forEach ?f ?l ?w0)) = _ =>
      change (same_windows w0 (world_of (forEach f l w0)) )
  end.
  apply preserves_forEach; unfold same_windows; [reflexivity | congruence |].
  intros room. destruct (negb _).
  - apply socket_to_emit_same_windows.
  - intros ?. reflexivity.
Qed.

(** C9. The cleanup of the disconnect handler removes the windows whose key
    starts with the identifier of the disconnecting connection [C] and keeps
    the others. So every window of [C] is gone, and so is every window of a
    connection whose identifier extends [C]'s, since its keys start with
    [C]'s identifier too. *)
Theorem disconnect_sweeps_by_prefix (MAX_ROOM_SIZE : nat) (C : string)
    (socket_rooms : list string) (now : Z) (w : world) :
  let w' := world_of (stream no_fault MAX_ROOM_SIZE C (Disconnect socket_rooms) now w) in
  (forall key, rateLimitMap w' !! key
               = if String.prefix C key then None else rateLimitMap w !! key) /\
  (forall e, rateLimitMap w' !! limit_key C e = None) /\
  (forall suffix e, rateLimitMap w' !! limit_key (C +:+ suffix) e = None).
Proof.
  intros w'. subst w'. rewrite on_disconnect_windows. repeat split.
  - intros key. apply sweep_lookup.
  - intros e. rewrite sweep_lookup. unfold limit_key. by rewrite prefix_append.
  - intros suffix e. rewrite sweep_lookup. unfold limit_key.
    rewrite append_assoc. by rewrite prefix_append.
Qed.

(** Connection "ab" disconnects: the chat window of connection "abc" is
    removed along with its own, the window of connection "b" stays. *)
Example sweep_overreach :
  let m : gmap string window :=
    {[ "ab:chat" := Window 3 1000; "abc:chat" := Window 2 1000; "b:chat" := Window 1 1000 ]} in
  let w' := world_of (stream no_fault 10 "ab" (Disconnect ["ab"]) 500 (World ∅ ∅ m [] [])) in
  rateLimitMap w' !! "abc:chat" = None /\
  rateLimitMap w' !! "b:chat" = Some (Window 1 1000).
Proof. vm_compute. split; reflexivity. Qed.

(** ** Room admission *)

Lemma getRoomSize_members (rs : gmap string (gset string)) r :
  match rs !! r with Some s => size s | None => 0%nat end = size (members rs r).
Proof.
  unfold members. destruct (rs !! r); [reflexivity|].
  symmetry. apply size_empty.
Qed.

Lemma room_data_ok_strings fs :
  room_data_ok fs = true ->
  exists r p, field "room" fs = JStr r /\ field "socketId" fs = JStr p.
Proof.
  unfold room_data_ok. intros H.
  destruct (field "room" fs) as [| | | |r| |]; try discriminate.
  destruct (field "socketId" fs) as [| | | |p| |];
    try (rewrite andb_false_r in H; discriminate).
  eauto.
Qed.

(** The room-full branch of the subscribe handler. *)
Lemma on_subscribe_full MAX_ROOM_SIZE id fs r now w m' :
  isRateLimited (rateLimitMap w) id "subscribe" now = (false, m') ->
  room_data_ok fs = true ->
  field "room" fs = JStr r ->
  (MAX_ROOM_SIZE <= size (members (rooms w) r))%nat ->
  stream no_fault MAX_ROOM_SIZE id (Subscribe (JObj fs)) now w
  = Done tt (World (rooms w) (sids w) m'
       (sent w ++ [Emission {[id]} "error" (message "Room is full. Maximum capacity reached.")])
       (logged w ++ [(LWarn, "Room size limit exceeded")])).
Proof.
  intros Hrl Hok Hr Hfull. unfold_handler. rewrite Hrl. cbn [no_fault negb].
  rewrite validateRoomData_object, Hok. cbn -[size]. rewrite Hr. cbn -[size].
  rewrite getRoomSize_members.
  destruct (Nat.leb_spec MAX_ROOM_SIZE (size (members (rooms w) r))); [reflexivity | lia].
Qed.

(** The joining branch of the subscribe handler. *)
Lemma on_subscribe_joins MAX_ROOM_SIZE id fs r p now w m' :
  isRateLimited (rateLimitMap w) id "subscribe" now = (false, m') ->
  room_data_ok fs = true ->
  field "room" fs = JStr r ->
  field "socketId" fs = JStr p ->
  (size (members (rooms w) r) < MAX_ROOM_SIZE)%nat ->
  let rs' := add_member id p (add_member id r (rooms w)) in
  stream no_fault MAX_ROOM_SIZE id (Subscribe (JObj fs)) now w
  = Done tt (World rs' (note_joined id [p] (note_joined id [r] (sids w))) m'
       (sent w ++ [Emission (members rs' r ∖ members rs' id) "new user"
                     (JObj [("socketId", JStr p); ("timestamp", JNum now)])])
       (logged w ++ [(LInfo, "User joined room")])).
Proof.
  intros Hrl Hok Hr Hp Hroom rs'. unfold_handler. rewrite Hrl. cbn [no_fault negb].
  rewrite validateRoomData_object, Hok. cbn -[size]. rewrite Hr. cbn -[size].
  rewrite getRoomSize_members.
  destruct (Nat.leb_spec MAX_ROOM_SIZE (size (members (rooms w) r))); [lia|].
  rewrite Hp. cbn -[size]. fold rs'.
  assert (is_Some (rs' !! r)) as Hsome.
  { unfold rs', add_member. destruct (decide (p = r)) as [->|Hne].
    - rewrite lookup_insert_eq. eauto.
    - rewrite lookup_insert_ne, lookup_insert_eq by done. eauto. }
  rewrite (bool_decide_eq_true_2 _ Hsome), to_recipients_string. reflexivity.
Qed.

Lemma same_rooms_refl w : same_rooms w w.
Proof. reflexivity. Qed.

Lemma same_rooms_trans w1 w2 w3 :
  same_rooms w1 w2 -> same_rooms w2 w3 -> same_rooms w1 w3.
Proof. unfold same_rooms. congruence. Qed.

#[local] Hint Resolve same_rooms_refl same_rooms_trans : preserves.

Section SameRooms.

Variable faulty : op -> bool.
Variable id : string.

Lemma same_rooms_logger l msg : preserves same_rooms (logger faulty l msg).
Proof. intros w. unfold_handler. destruct (faulty OpLog); reflexivity. Qed.

Lemma same_rooms_socket_emit ev data : preserves same_rooms (socket_emit faulty id ev data).
Proof. intros w. unfold_handler. destruct (faulty OpEmit); reflexivity. Qed.

Lemma same_rooms_socket_to_emit target ev data :
  preserves same_rooms (socket_to_emit faulty id target ev data).
Proof. intros w. unfold_handler. destruct (faulty OpBroadcast); reflexivity. Qed.

Lemma same_rooms_rate_limited ev now : preserves same_rooms (rate_limited id ev now).
Proof. intros w. unfold rate_limited. destruct (isRateLimited _ _ _ _). reflexivity. Qed.

Lemma same_rooms_sweep : preserves same_rooms
  (modify (fun w => set_rateLimitMap (sweep (rateLimitMap w) id) w)).
Proof. intros w. reflexivity. Qed.

(** Only subscribe and leaveRoom touch the rooms. *)
Lemma stream_same_rooms MAX_ROOM_SIZE ev now :
  match ev with
  | Subscribe _ | LeaveRoom _ => True
  | _ => preserves same_rooms (stream faulty MAX_ROOM_SIZE id ev now)
  end.
Proof.
  destruct ev; try exact I;
    unfold stream, on_newUserStart, on_sdp, on_ice_candidates, on_chat, on_disconnect, on_error;
    repeat first
      [ apply same_rooms_logger | apply same_rooms_rate_limited
      | apply same_rooms_socket_emit | apply same_rooms_socket_to_emit
      | apply same_rooms_sweep | preserves_step ].
Qed.

End SameRooms.

(** What a subscribe does to the rooms: nothing, or the two joins, and then
    the target room was below the limit. *)
Lemma subscribe_rooms MAX_ROOM_SIZE id data now w :
  let w' := world_of (stream no_fault MAX_ROOM_SIZE id (Subscribe data) now w) in
  rooms w' = rooms w \/
  exists fs r p,
    data = JObj fs /\ field "room" fs = JStr r /\ field "socketId" fs = JStr p /\
    (size (members (rooms w) r) < MAX_ROOM_SIZE)%nat /\
    rooms w' = add_member id p (add_member id r (rooms w)).
Proof.
  intros w'. subst w'.
  destruct (isRateLimited (rateLimitMap w) id "subscribe" now) as [limited m'] eqn:Hrl.
  destruct limited.
  { left. unfold_handler. rewrite Hrl. reflexivity. }
  destruct (validateRoomData data) as [[|]|err] eqn:Hv.
  - destruct (validateRoomData_accepts data Hv) as (fs & -> & Hok).
    destruct (room_data_ok_strings fs Hok) as (r & p & Hr & Hp).
    destruct (le_lt_dec MAX_ROOM_SIZE (size (members (rooms w) r))) as [Hfull|Hroom].
    + left. by rewrite (on_subscribe_full _ _ _ r _ _ m').
    + right. exists fs, r, p. by rewrite (on_subscribe_joins _ _ _ r p _ _ m').
  - left. unfold_handler. rewrite Hrl, Hv. reflexivity.
  - left. unfold_handler. rewrite Hrl, Hv. reflexivity.
Qed.

(** What a leaveRoom does to the rooms. *)
Lemma leaveRoom_rooms MAX_ROOM_SIZE id data now w :
  let w' := world_of (stream no_fault MAX_ROOM_SIZE id (LeaveRoom data) now w) in
  rooms w' = rooms w \/ exists r, rooms w' = remove_member id r (rooms w).
Proof.
  intros w'. subst w'. unfold_handler.
  destruct (has_room data) as [[|]|err] eqn:Hh; cbn; [|by left|by left].
  destruct (data.["room"]) as [room|err] eqn:Hroom; cbn; [|by left].
  destruct room; cbn; eauto.
Qed.

(** When the 'disconnect' listeners run, [socket.rooms] is empty. *)
Lemma socket_rooms_del_all id w :
  elements (socket_rooms_of (sids (del_all id w)) id) = [].
Proof.
  unfold del_all, socket_rooms_of. cbn [sids]. rewrite lookup_delete_eq. cbn [default].
  apply elements_empty.
Qed.

(** A disconnection: what is left of it is [delAll], two log lines and the
    sweep of the windows. *)
Lemma step_disconnect MAX_ROOM_SIZE id socket_rooms now w :
  step MAX_ROOM_SIZE w (Deliver id (Disconnect socket_rooms) now)
  = World (rooms (del_all id w)) (delete id (sids w)) (sweep (rateLimitMap w) id)
      (sent w)
      (logged w ++ [(LInfo, "Client disconnected"); (LInfo, "Socket disconnected")]).
Proof.
  unfold step. cbv zeta. rewrite socket_rooms_del_all.
  unfold emit_disconnect, connection_on_disconnect. unfold_handler. cbn.
  unfold push_logged, set_rateLimitMap. cbn. by rewrite <- app_assoc.
Qed.

Lemma step_bound MAX_ROOM_SIZE R w a :
  checked_for R a ->
  (size (members (rooms w) R) <= MAX_ROOM_SIZE)%nat ->
  (size (members (rooms (step MAX_ROOM_SIZE w a)) R) <= MAX_ROOM_SIZE)%nat.
Proof.
  intros Ha Hw. destruct a as [id|id ev now]; simpl in Ha.
  - simpl. rewrite members_add_member. by rewrite decide_False.
  - destruct ev as [data|data|data|data|data|data|rs|err]; [unfold step ..| |unfold step].
    2-5, 8: by match goal with
               | |- context [stream no_fault ?M ?i ?e ?n ?w0] =>
                   rewrite (stream_same_rooms no_fault i M e n w0)
               end.
    + destruct (subscribe_rooms MAX_ROOM_SIZE id data now w)
        as [->|(fs & r & p & -> & Hr & Hp & Hroom & ->)]; [exact Hw|].
      simpl in Ha. rewrite Hp in Ha. rewrite !members_add_member.
      rewrite (decide_False (P := p = R)) by congruence.
      destruct (decide (r = R)) as [->|_]; [|exact Hw].
      rewrite size_union_alt, size_singleton.
      assert (size (members (rooms w) R ∖ {[id]}) <= size (members (rooms w) R))%nat
        by (apply subseteq_size; set_solver).
      lia.
    + destruct (leaveRoom_rooms MAX_ROOM_SIZE id data now w) as [->|[r ->]]; [exact Hw|].
      rewrite members_remove_member. destruct (decide (r = R)); [|exact Hw].
      etrans; [apply subseteq_size|exact Hw]. set_solver.
    + rewrite step_disconnect. unfold del_all. cbn [rooms].
      etrans; [apply subseteq_size, members_del_all_subseteq|exact Hw].
Qed.

Lemma run_bound MAX_ROOM_SIZE R actions : forall w,
  Forall (checked_for R) actions ->
  (size (members (rooms w) R) <= MAX_ROOM_SIZE)%nat ->
  (size (members (rooms (run MAX_ROOM_SIZE w actions)) R) <= MAX_ROOM_SIZE)%nat.
Proof.
  induction actions as [|a actions IH]; intros w Hall Hw; [exact Hw|].
  inversion Hall; subst. simpl. apply IH; [assumption|]. by apply step_bound.
Qed.

(** C1, as stated, fails for the implicit room: with a limit of 2, three
    connections subscribe to three different rooms under the same
    participant identifier "p"; none is rejected and the room "p" ends with
    three members. *)
Lemma implicit_room_exceeds_limit :
  let w := run 2 start [Connect "s1"; Connect "s2"; Connect "s3";
                        Deliver "s1" (subscribe_to "r1" "p") 0;
                        Deliver "s2" (subscribe_to "r2" "p") 0;
                        Deliver "s3" (subscribe_to "r3" "p") 0] in
  members (rooms w) "p" = {[ "s1"; "s2"; "s3" ]} /\
  Forall (fun e => event e <> "error") (sent w) /\
  ~ (size (members (rooms w) "p") <= 2)%nat.
Proof.
  split; [|split].
  - vm_compute. reflexivity.
  - vm_compute. repeat constructor; discriminate.
  - vm_compute. lia.
Qed.

(** The same way round the check fills a room that was subscribed to: "r1"
    is full with two members, and a third connection enters it by naming it
    as its participant identifier. *)
Example full_room_entered_as_participant :
  let w := run 2 start [Deliver "s1" (subscribe_to "r1" "p1") 0;
                        Deliver "s2" (subscribe_to "r1" "p2") 0;
                        Deliver "s3" (subscribe_to "lobby" "r1") 0] in
  members (rooms w) "r1" = {[ "s1"; "s2"; "s3" ]}.
Proof. vm_compute. reflexivity. Qed.

(** C1 (amended). A subscribe that passes the rate limiter and the
    validation and whose target room [data.room] already has at least
    [MAX_ROOM_SIZE] members is rejected: the caller alone gets an 'error'
    event and no room changes. Hence, in every state reached from the start,
    a room has at most [MAX_ROOM_SIZE] members provided it was only entered
    as the target room of a subscribe, that is, provided no connection is
    named after it and no subscribe gave it as [socketId]. The implicit room
    joined by [socket.join(data.socketId)] is not size checked. *)
Theorem subscribe_room_limit (MAX_ROOM_SIZE : nat) :
  (forall id data r now w m',
     isRateLimited (rateLimitMap w) id "subscribe" now = (false, m') ->
     validateRoomData data = Ok true ->
     data.["room"] = Ok (JStr r) ->
     (MAX_ROOM_SIZE <= size (members (rooms w) r))%nat ->
     stream no_fault MAX_ROOM_SIZE id (Subscribe data) now w
     = Done tt (World (rooms w) (sids w) m'
          (sent w ++ [Emission {[id]} "error"
                        (message "Room is full. Maximum capacity reached.")])
          (logged w ++ [(LWarn, "Room size limit exceeded")]))) /\
  (forall R actions,
     Forall (checked_for R) actions ->
     (size (members (rooms (run MAX_ROOM_SIZE start actions)) R) <= MAX_ROOM_SIZE)%nat).
Proof.
  split.
  - intros id data r now w m' Hrl Hv Hr Hfull.
    destruct (validateRoomData_accepts data Hv) as (fs & -> & Hok).
    simpl in Hr. injection Hr as Hr. by apply on_subscribe_full with (r := r).
  - intros R actions Hall. apply run_bound; [exact Hall|].
    unfold start, members. cbn [rooms]. rewrite lookup_empty. cbn [default].
    rewrite size_empty. lia.
Qed.

Lemma subscribe_room_limit_witness :
  let w := run 2 start [Deliver "s1" (subscribe_to "r1" "p1") 0;
                        Deliver "s2" (subscribe_to "r1" "p2") 0] in
  stream no_fault 2 "s3" (subscribe_to "r1" "p3") 0 w
  = Done tt (World (rooms w) (sids w)
       (<[limit_key "s3" "subscribe" := Window 1 (0 + 1000)]> (rateLimitMap w))
       (sent w ++ [Emission {[ "s3" ]} "error"
                     (message "Room is full. Maximum capacity reached.")])
       (logged w ++ [(LWarn, "Room size limit exceeded")])) /\
  (size (members (rooms (run 2 start [Deliver "s1" (subscribe_to "r1" "p1") 0;
                                      Deliver "s2" (subscribe_to "r1" "p2") 0;
                                      Deliver "s3" (subscribe_to "r1" "p3") 0;
                                      Deliver "s1" (LeaveRoom (JObj [("room", JStr "r1")])) 5;
                                      Deliver "s3" (subscribe_to "r1" "p3") 9])) "r1")
   <= 2)%nat.
Proof.
  destruct (subscribe_room_limit 2) as [Hfull Hrun]. split.
  - apply (Hfull "s3" _ "r1").
    + reflexivity.
    + reflexivity.
    + reflexivity.
    + vm_compute. lia.
  - apply (Hrun "r1"). repeat constructor; simpl; discriminate.
Defined.

(** C4, as stated, fails when the room is full: with a limit of 2 and "s1",
    "s2" in room "r1", a second subscribe of "s1" to "r1" is answered with
    the room-full error. *)
Lemma full_room_rejoin_rejected :
  let w := run 2 start [Deliver "s1" (subscribe_to "r1" "p1") 0;
                        Deliver "s2" (subscribe_to "r1" "p2") 0] in
  let w' := world_of (stream no_fault 2 "s1" (subscribe_to "r1" "p1") 5000 w) in
  "s1" ∈ members (rooms w) "r1" /\
  size (members (rooms w) "r1") = 2%nat /\
  sent w' = (sent w ++ [Emission {[ "s1" ]} "error"
                          (message "Room is full. Maximum capacity reached.")])%list.
Proof.
  split; [|split].
  - vm_compute. set_solver.
  - vm_compute. reflexivity.
  - vm_compute. reflexivity.
Qed.

(** C4 (amended). When connection [C] is already a member of room [R], a
    further subscribe of [C] to [R] that passes the rate limiter and the
    validation leaves the members of [R] as they were. It goes through like
    a first join, the members of [R] outside the own room of [C] being told
    of a new user, when [R] has fewer than [MAX_ROOM_SIZE] members; when [R] has [MAX_ROOM_SIZE] members
    or more it is rejected with the room-full error, like any other join. *)
Theorem rejoin_keeps_members (MAX_ROOM_SIZE : nat) (C R : string) (data : jsval)
    (now : Z) (w : world) (m' : gmap string window) :
  isRateLimited (rateLimitMap w) C "subscribe" now = (false, m') ->
  validateRoomData data = Ok true ->
  data.["room"] = Ok (JStr R) ->
  C ∈ members (rooms w) R ->
  let w' := world_of (stream no_fault MAX_ROOM_SIZE C (Subscribe data) now w) in
  members (rooms w') R = members (rooms w) R /\
  ((size (members (rooms w) R) < MAX_ROOM_SIZE)%nat ->
   exists p, data.["socketId"] = Ok (JStr p) /\
     sent w' = (sent w ++ [Emission
                             (members (rooms w) R
                                ∖ members (add_member C p (add_member C R (rooms w))) C)
                             "new user"
                             (JObj [("socketId", JStr p); ("timestamp", JNum now)])])%list) /\
  ((MAX_ROOM_SIZE <= size (members (rooms w) R))%nat ->
   rooms w' = rooms w /\
   sent w' = (sent w ++ [Emission {[C]} "error"
                           (message "Room is full. Maximum capacity reached.")])%list).
Proof.
  intros Hrl Hv HR Hin w'. subst w'.
  destruct (validateRoomData_accepts data Hv) as (fs & -> & Hok).
  destruct (room_data_ok_strings fs Hok) as (r & p & Hr & Hp).
  simpl in HR. rewrite Hr in HR. injection HR as ->.
  destruct (le_lt_dec MAX_ROOM_SIZE (size (members (rooms w) R))) as [Hfull|Hroom].
  - rewrite (on_subscribe_full _ _ _ R _ _ m') by assumption. cbn [world_of rooms sent].
    split; [reflexivity|]. split; [intros; lia | intros _; split; reflexivity].
  - rewrite (on_subscribe_joins _ _ _ R p _ _ m') by assumption. cbn [world_of rooms sent].
    assert (members (add_member C p (add_member C R (rooms w))) R = members (rooms w) R)
      as Hsame.
    { rewrite !members_add_member. rewrite (decide_True (P := R = R)) by reflexivity.
      destruct (decide (p = R)); set_solver. }
    rewrite Hsame. split; [reflexivity|]. split; [|intros; lia].
    intros _. exists p. simpl. by rewrite Hp.
Qed.

Lemma rejoin_keeps_members_witness :
  let w := run 2 start [Deliver "s1" (subscribe_to "r1" "p1") 0] in
  let w' := world_of (stream no_fault 2 "s1" (subscribe_to "r1" "p1") 5000 w) in
  members (rooms w') "r1" = members (rooms w) "r1".
Proof.
  refine (proj1 (rejoin_keeps_members 2 "s1" "r1"
           (JObj [("room", JStr "r1"); ("socketId", JStr "p1")]) 5000
           (run 2 start [Deliver "s1" (subscribe_to "r1" "p1") 0])
           (<[limit_key "s1" "subscribe" := Window 1 (5000 + 1000)]>
              (rateLimitMap (run 2 start [Deliver "s1" (subscribe_to "r1" "p1") 0])))
           _ _ _ _)).
  - vm_compute. reflexivity.
  - reflexivity.
  - reflexivity.
  - vm_compute. set_solver.
Defined.

(** * Further properties *)

(** ** Rate limiter: windows stay well formed and counters are separate *)

Lemma isRateLimited_other_key m c e now key :
  key <> limit_key c e -> snd (isRateLimited m c e now) !! key = m !! key.
Proof.
  intros Hne. unfold isRateLimited.
  destruct (m !! limit_key c e) as [limit|]; simpl.
  - destruct (now >? resetTime limit); simpl; [by rewrite lookup_insert_ne|].
    destruct (count limit >=? RATE_LIMIT_MAX_EVENTS); simpl; [reflexivity|].
    by rewrite lookup_insert_ne.
  - by rewrite lookup_insert_ne.
Qed.

Lemma isRateLimited_same_key m c e now :
  exists limit', snd (isRateLimited m c e now) !! limit_key c e = Some limit' /\
    ((count limit' = 1 /\ resetTime limit' = now + 1000) \/
     (exists limit, m !! limit_key c e = Some limit /\ resetTime limit' = resetTime limit /\
        (limit' = limit /\ 10 <= count limit \/
         count limit' = count limit + 1 /\ count limit < 10))).
Proof.
  unfold isRateLimited. destruct (m !! limit_key c e) as [limit|] eqn:Hm; simpl.
  - destruct (now >? resetTime limit); simpl.
    { rewrite lookup_insert_eq. eexists. split; [reflexivity|]. left. by split. }
    unfold RATE_LIMIT_MAX_EVENTS. rewrite Z.geb_leb.
    destruct (Z.leb_spec 10 (count limit)); simpl.
    + exists limit. split; [exact Hm|]. right. exists limit. eauto.
    + rewrite lookup_insert_eq. eexists. split; [reflexivity|]. right.
      exists limit. simpl. eauto 6.
  - rewrite lookup_insert_eq. eexists. split; [reflexivity|]. left. by split.
Qed.

Lemma calls_well_formed l : forall m times,
  well_formed times m ->
  well_formed (times ++ List.map snd l) (calls m l).
Proof.
  induction l as [|[[c e] now] l IH]; intros m times Hm.
  - simpl. rewrite app_nil_r. exact Hm.
  - cbn [calls foldl List.map snd].
    replace (times ++ now :: List.map snd l)%list
      with ((times ++ [now]) ++ List.map snd l)%list by (by rewrite <- app_assoc).
    apply IH. intros key limit' Hk.
    destruct (decide (key = limit_key c e)) as [->|Hne].
    + destruct (isRateLimited_same_key m c e now) as (l' & Hl' & Hcase).
      rewrite Hl' in Hk. injection Hk as <-.
      destruct Hcase as [[Hc Hr]|(limit & Hlim & Hr & Hcase)].
      * split; [lia|]. exists now. split; [set_solver|exact Hr].
      * destruct (Hm _ _ Hlim) as [Hb (t & Ht & Hrt)].
        split; [destruct Hcase as [[-> _]|[Hc Hlt]]; lia|].
        exists t. split; [set_solver|congruence].
    + rewrite isRateLimited_other_key in Hk by exact Hne.
      destruct (Hm _ _ Hk) as [Hb (t & Ht & Hrt)].
      split; [exact Hb|]. exists t. split; [set_solver|exact Hrt].
Qed.

(** X1. Whatever calls of [isRateLimited] were made since the map was empty,
    every window it holds has a count between 1 and 10 and a reset time that
    is the clock reading of one of the calls plus 1000 ms. *)
Theorem windows_well_formed (l : list (string * string * Z)) (key : string) (limit : window) :
  calls ∅ l !! key = Some limit ->
  1 <= count limit <= 10 /\
  exists now, now ∈ List.map snd l /\ resetTime limit = now + 1000.
Proof.
  intros H. apply (calls_well_formed l ∅ []) in H; [exact H|].
  intros k w Hk. by rewrite lookup_empty in Hk.
Qed.

Lemma windows_well_formed_witness :
  1 <= count (Window 2 1005) <= 10 /\
  exists now, now ∈ List.map snd [("a", "chat", 5); ("a", "chat", 7)] /\
              resetTime (Window 2 1005) = now + 1000.
Proof.
  apply (windows_well_formed [("a", "chat", 5); ("a", "chat", 7)] "a:chat").
  vm_compute. reflexivity.
Defined.

Lemma limit_key_cons a c e : limit_key (String a c) e = String a (limit_key c e).
Proof. reflexivity. Qed.

Lemma limit_key_nil e : limit_key "" e = String ":" e.
Proof. reflexivity. Qed.

Lemma limit_key_inj c : forall c' e e',
  no_colon c = true -> no_colon c' = true ->
  limit_key c e = limit_key c' e' -> c = c' /\ e = e'.
Proof.
  induction c as [|a c IH]; intros [|a' c'] e e' Hc Hc' Hk.
  - rewrite !limit_key_nil in Hk. injection Hk as ->. by split.
  - rewrite limit_key_nil, limit_key_cons in Hk. injection Hk as <- _.
    discriminate Hc'.
  - rewrite limit_key_nil, limit_key_cons in Hk. injection Hk as -> _.
    discriminate Hc.
  - rewrite !limit_key_cons in Hk. injection Hk as -> Hk.
    unfold no_colon in Hc, Hc'. simpl in Hc, Hc'.
    apply andb_true_iff in Hc as [_ Hc], Hc' as [_ Hc'].
    destruct (IH c' e e' Hc Hc' Hk) as [-> ->]. by split.
Qed.

(** X2. Counters are separate: when the identifiers of two connections hold
    no colon, a call of [isRateLimited] for connection [c] and event [e]
    leaves the window of any other pair of connection and event as it was. *)
Theorem counters_separate (m : gmap string window) (c e c' e' : string) (now : Z) :
  no_colon c = true -> no_colon c' = true ->
  (c, e) <> (c', e') ->
  snd (isRateLimited m c e now) !! limit_key c' e' = m !! limit_key c' e'.
Proof.
  intros Hc Hc' Hne. apply isRateLimited_other_key. intros Hk.
  destruct (limit_key_inj c' c e' e Hc' Hc Hk) as [-> ->]. by apply Hne.
Qed.

Lemma counters_separate_witness :
  snd (isRateLimited {[ "b:chat" := Window 10 1000 ]} "a" "chat" 5) !! limit_key "b" "chat"
  = ({[ "b:chat" := Window 10 1000 ]} : gmap string window) !! limit_key "b" "chat".
Proof.
  apply (counters_separate {[ "b:chat" := Window 10 1000 ]} "a" "chat" "b" "chat" 5).
  - reflexivity.
  - reflexivity.
  - discriminate.
Defined.

Lemma admitted_inside (k : Z) (n : nat) : forall a : nat,
  (List.length (List.filter negb
     (List.map (fun i => (10 <=? k + Z.of_nat i)%Z) (seq a n))) <= Z.to_nat (10 - k) - a)%nat.
Proof.
  induction n as [|n IH]; intros a; simpl; [lia|].
  specialize (IH (S a)).
  destruct (Z.leb_spec 10 (k + Z.of_nat a)); simpl; lia.
Qed.

(** X3. However many events of one type a connection sends, among those that
    arrive no more than 1000 ms after the one that opened the window at most
    ten, the opening one included, are admitted. *)
Theorem at_most_ten_admitted (m : gmap string window) (c e : string) (now : Z)
    (later : list Z) :
  m !! limit_key c e = None ->
  Forall (fun t => t - now <= 1000) later ->
  (admitted (fst (burst m c e (now :: later))) <= 10)%nat.
Proof.
  intros Hm Hall. cbn [burst]. rewrite (isRateLimited_fresh m c e now Hm).
  pose proof (burst_inside c e (now + 1000) later 1
                (<[limit_key c e := Window 1 (now + 1000)]> m)
                (lookup_insert_eq _ _ _)) as Hin.
  destruct (burst _ c e later) as [answers m']. simpl in Hin.
  unfold admitted. cbn [fst List.filter negb List.length].
  rewrite Hin by (eapply Forall_impl; [exact Hall|]; simpl; intros; lia).
  pose proof (admitted_inside 1 (List.length later) 0). simpl in *. lia.
Qed.

Lemma at_most_ten_admitted_witness :
  (admitted (fst (burst ∅ "c" "sdp" (0%Z :: replicate 25 400%Z))) <= 10)%nat.
Proof.
  apply (at_most_ten_admitted ∅ "c" "sdp" 0 (replicate 25 400)).
  - reflexivity.
  - apply Forall_forall. intros t Ht. apply elem_of_replicate in Ht as [-> _]. lia.
Defined.

(** ** Validators: what an accepted payload looks like *)

Lemma room_name_re_spec r :
  Regex.room_name_re r = true <->
  r <> "" /\ forallb Regex.is_room_char (list_ascii_of_string r) = true.
Proof.
  unfold Regex.room_name_re. destruct r as [|ch r]; simpl.
  - split; [discriminate | intros [H _]; by destruct H].
  - split; [intros H; split; [discriminate | exact H] | intros [_ H]; exact H].
Qed.

Lemma length_within s (n : Z) :
  0 <= n ->
  negb (String.eqb s "") && negb (n <? Z.of_nat (String.length s)) = true <->
  (1 <= String.length s <= Z.to_nat n)%nat.
Proof.
  intros Hn. rewrite andb_true_iff, !negb_true_iff, Z.ltb_ge. destruct s as [|ch s]; simpl.
  - split; [intros [H _]; discriminate | lia].
  - split; [intros [_ H]; lia | intros H; split; [reflexivity | lia]].
Qed.

(** X4. [validateRoomData] accepts a payload exactly when it is an object
    whose [room] is a string of 1 to 100 characters, all of them letters,
    digits, [_] or [-], and whose [socketId] is a non-empty string; the
    [socketId] is not restricted further. *)
Theorem room_data_accepted (data : jsval) :
  validateRoomData data = Ok true <->
  exists fs r p,
    data = JObj fs /\ field "room" fs = JStr r /\ field "socketId" fs = JStr p /\
    p <> "" /\ (1 <= String.length r <= 100)%nat /\
    forallb Regex.is_room_char (list_ascii_of_string r) = true.
Proof.
  split.
  - intros H. destruct (validateRoomData_accepts data H) as (fs & -> & Hok).
    unfold room_data_ok in Hok. apply andb_true_iff in Hok as [Hok Hre].
    apply andb_true_iff in Hok as [Hr Hp].
    apply nonempty_string_spec in Hr as (r & Hr & Hne), Hp as (p & Hp & Hpne).
    rewrite Hr in Hre. apply andb_true_iff in Hre as [Hlen Hre].
    apply room_name_re_spec in Hre as [_ Hchars].
    exists fs, r, p. repeat split; try assumption.
    + destruct r; [by destruct Hne | simpl; lia].
    + apply negb_true_iff, Z.ltb_ge in Hlen. lia.
  - intros (fs & r & p & -> & Hr & Hp & Hpne & [Hlo Hhi] & Hchars).
    rewrite validateRoomData_object. f_equal. unfold room_data_ok. rewrite Hr, Hp.
    assert (r <> "") as Hne by (intros ->; simpl in Hlo; lia).
    simpl. apply String.eqb_neq in Hne as Hne', Hpne. rewrite Hne', Hpne. simpl.
    rewrite (proj2 (room_name_re_spec r)) by (by split).
    rewrite andb_true_r. apply negb_true_iff, Z.ltb_ge. lia.
Qed.

Lemma room_data_accepted_witness :
  validateRoomData (JObj [("room", JStr "team_7-b"); ("socketId", JStr "any id: ok")])
  = Ok true.
Proof.
  apply (proj2 (room_data_accepted _)).
  exists [("room", JStr "team_7-b"); ("socketId", JStr "any id: ok")], "team_7-b", "any id: ok".
  repeat split; try reflexivity; try discriminate; simpl; lia.
Defined.

(** X5. [validateChatData] accepts a payload exactly when it is an object
    whose [room] and [sender] are non-empty strings and whose [msg] is a
    string of 1 to 1000 characters that the injection pattern does not
    match. *)
Theorem chat_data_accepted (data : jsval) :
  validateChatData data = Ok true <->
  exists fs room sender msg,
    data = JObj fs /\
    field "room" fs = JStr room /\ room <> "" /\
    field "sender" fs = JStr sender /\ sender <> "" /\
    field "msg" fs = JStr msg /\ (1 <= String.length msg <= 1000)%nat /\
    Regex.injection_re msg = false.
Proof.
  split.
  - intros H. destruct (validateChatData_accepts data H) as (fs & -> & Hok).
    unfold chat_data_ok in Hok. apply andb_true_iff in Hok as [Hok Hmsg].
    apply andb_true_iff in Hok as [Hr Hs].
    apply nonempty_string_spec in Hr as (room & Hr & Hrne), Hs as (sender & Hs & Hsne).
    destruct (field "msg" fs) as [| | | |msg| |] eqn:Hm; try discriminate.
    apply andb_true_iff in Hmsg as [Hlen Hre].
    apply (length_within msg 1000) in Hlen; [|lia].
    apply negb_true_iff in Hre.
    exists fs, room, sender, msg. repeat split; try assumption; lia.
  - intros (fs & room & sender & msg & -> & Hr & Hrne & Hs & Hsne & Hm & Hlen & Hre).
    rewrite validateChatData_object. f_equal. unfold chat_data_ok. rewrite Hr, Hs, Hm.
    simpl. apply String.eqb_neq in Hrne, Hsne. rewrite Hrne, Hsne, Hre. simpl.
    rewrite andb_true_r. apply (length_within msg 1000); lia.
Qed.

Lemma chat_data_accepted_witness :
  validateChatData (JObj [("room", JStr "r1"); ("sender", JStr "ann"); ("msg", JStr "hello")])
  = Ok true.
Proof.
  apply (proj2 (chat_data_accepted _)).
  exists [("room", JStr "r1"); ("sender", JStr "ann"); ("msg", JStr "hello")],
    "r1", "ann", "hello".
  repeat split; try reflexivity; try discriminate; simpl; lia.
Defined.

Lemma lowercase_append a b :
  Regex.lowercase (a +:+ b) = Regex.lowercase a +:+ Regex.lowercase b.
Proof.
  induction a as [|ch a IH]; [reflexivity|].
  change (String (Regex.lower ch) (Regex.lowercase (a +:+ b))
          = String (Regex.lower ch) (Regex.lowercase a +:+ Regex.lowercase b)).
  by rewrite IH.
Qed.

Lemma search_here p s : p s = true -> Regex.search p s = true.
Proof. intros H. destruct s; simpl; by rewrite H. Qed.

Lemma search_append p a b : Regex.search p b = true -> Regex.search p (a +:+ b) = true.
Proof.
  intros H. induction a as [|ch a IH]; [exact H|].
  change (Regex.search p (String ch (a +:+ b)) = true). simpl.
  rewrite IH. apply orb_true_r.
Qed.

Lemma word_run_eq_append w rest : forall seen,
  forallb Regex.is_word (list_ascii_of_string w) = true ->
  (w <> "" \/ seen = true) ->
  Regex.word_run_eq (w +:+ String "=" rest) seen = true.
Proof.
  induction w as [|ch w IH]; intros seen Hw Hseen.
  - destruct Hseen as [H| ->]; [by destruct H|]. reflexivity.
  - simpl in Hw. apply andb_true_iff in Hw as [Hch Hw].
    change (Regex.word_run_eq (String ch (w +:+ String "=" rest)) seen = true).
    simpl. rewrite Hch. apply IH; [exact Hw | by right].
Qed.

(** X6. A chat message is rejected as soon as it contains, in any mix of
    upper and lower case and at any place, the text [<script], the text
    [javascript:], or [on] followed by one or more letters, digits or
    underscores and a [=] sign. *)
Theorem chat_injection_rejected (fs : list (string * jsval)) (before pattern rest w : string) :
  field "msg" fs = JStr (before +:+ pattern +:+ rest) ->
  Regex.lowercase pattern = "<script" \/
  Regex.lowercase pattern = "javascript:" \/
  (Regex.lowercase pattern = "on" +:+ w +:+ "=" /\ w <> "" /\
   forallb Regex.is_word (list_ascii_of_string w) = true) ->
  validateChatData (JObj fs) = Ok false.
Proof.
  intros Hm Hpat. rewrite validateChatData_object. f_equal.
  unfold chat_data_ok. rewrite Hm.
  assert (Regex.injection_re (before +:+ pattern +:+ rest) = true) as ->.
  { unfold Regex.injection_re. rewrite !lowercase_append.
    apply search_append, search_here. unfold Regex.injection_at.
    destruct Hpat as [-> | [-> | (-> & Hne & Hw)]].
    - by rewrite prefix_append.
    - rewrite prefix_append. apply orb_true_iff. left. apply orb_true_r.
    - apply orb_true_iff. right.
      change (("on" +:+ w +:+ "=") +:+ Regex.lowercase rest)
        with (String "o" (String "n" ((w +:+ "=") +:+ Regex.lowercase rest))).
      rewrite append_assoc. cbv iota beta.
      apply word_run_eq_append; [exact Hw | by left]. }
  simpl. by rewrite !andb_false_r.
Qed.

Lemma chat_injection_rejected_witness :
  validateChatData (JObj [("room", JStr "r1"); ("sender", JStr "ann");
                          ("msg", JStr "see <img ONerror=alert(1)>")]) = Ok false.
Proof.
  apply (chat_injection_rejected _ "see <img " "ONerror=" "alert(1)>" "error").
  - reflexivity.
  - right. right. split; [reflexivity | split; [discriminate | reflexivity]].
Defined.

(** X7. [validateSDPData] accepts a payload exactly when it is an object
    whose [to] and [sender] are non-empty strings and whose [description] is
    an object (not an array) with [type] "offer" or "answer" and a non-empty
    string [sdp]. *)
Theorem sdp_data_accepted (data : jsval) :
  validateSDPData data = Ok true <->
  exists fs t s dfs ty x,
    data = JObj fs /\
    field "to" fs = JStr t /\ t <> "" /\
    field "sender" fs = JStr s /\ s <> "" /\
    field "description" fs = JObj dfs /\
    field "type" dfs = JStr ty /\ (ty = "offer" \/ ty = "answer") /\
    field "sdp" dfs = JStr x /\ x <> "".
Proof.
  split.
  - intros H. destruct (validateSDPData_accepts data H) as (fs & -> & Hok).
    unfold sdp_data_ok in Hok.
    apply andb_true_iff in Hok as [Hok Hx]. apply andb_true_iff in Hok as [Hok Hty].
    apply andb_true_iff in Hok as [Hok Hd]. apply andb_true_iff in Hok as [Ht Hs].
    apply nonempty_string_spec in Ht as (t & Ht & Htne), Hs as (s & Hs & Hsne).
    destruct (field "description" fs) as [| | | | |dfs|items] eqn:Hdesc; try discriminate.
    unfold prop in Hty, Hx. simpl in Hty, Hx.
    apply nonempty_string_spec in Hx as (x & Hx & Hxne).
    destruct (field "type" dfs) as [| | | |ty| |] eqn:Hty'; try discriminate.
    exists fs, t, s, dfs, ty, x. repeat split; try assumption.
    simpl in Hty. apply orb_true_iff in Hty as [E|E]; apply String.eqb_eq in E; auto.
  - intros (fs & t & s & dfs & ty & x & -> & Ht & Htne & Hs & Hsne & Hd & Hty & Hoa & Hx & Hxne).
    rewrite validateSDPData_object. f_equal. unfold sdp_data_ok, prop.
    rewrite Ht, Hs, Hd. simpl. rewrite Hty, Hx. simpl.
    apply String.eqb_neq in Htne, Hsne, Hxne. rewrite Htne, Hsne, Hxne. simpl.
    destruct Hoa as [-> | ->]; reflexivity.
Qed.

Lemma sdp_data_accepted_witness :
  validateSDPData
    (JObj [("to", JStr "B"); ("sender", JStr "A");
           ("description", JObj [("type", JStr "answer"); ("sdp", JStr "v=0")])])
  = Ok true.
Proof.
  apply (proj2 (sdp_data_accepted _)).
  exists [("to", JStr "B"); ("sender", JStr "A");
          ("description", JObj [("type", JStr "answer"); ("sdp", JStr "v=0")])],
    "B", "A", [("type", JStr "answer"); ("sdp", JStr "v=0")], "answer", "v=0".
  repeat split; try reflexivity; try discriminate. by right.
Defined.

(** ** Forwarding by the handlers *)

(** X8. A 'newUserStart' event that the rate limiter admits and whose
    payload has truthy [to] and [sender] is forwarded once, as
    [{sender, timestamp}]: to the members of the rooms named by [to], or,
    when [to] is the empty array, to every connected socket; the members of
    the caller's own room are skipped in both cases. [to] and [sender] need
    not be strings, and no room changes. *)
Theorem newUserStart_forwarded (MAX_ROOM_SIZE : nat) (id : string) (data target sender : jsval)
    (now : Z) (w : world) (m' : gmap string window) :
  isRateLimited (rateLimitMap w) id "newUserStart" now = (false, m') ->
  truthy data = true ->
  data.["to"] = Ok target -> truthy target = true ->
  data.["sender"] = Ok sender -> truthy sender = true ->
  stream no_fault MAX_ROOM_SIZE id (NewUserStart data) now w
  = Done tt (World (rooms w) (sids w) m'
       (sent w ++ [Emission (match target with
                             | JArr [] => dom (sids w)
                             | _ => audience (rooms w) target
                             end ∖ members (rooms w) id) "newUserStart"
                     (JObj [("sender", sender); ("timestamp", JNum now)])])
       (logged w ++ [(LDebug, "New user start signal")])).
Proof.
  intros Hrl Hd Ht Htt Hs Hst. unfold_handler. rewrite Hrl. cbn [no_fault].
  unfold newUserStart_invalid, or_, not_, exn_bind. rewrite Hd, Ht, Hs. cbn [negb].
  rewrite Htt, Hst. reflexivity.
Qed.

Lemma newUserStart_forwarded_witness :
  let w := run 10 start [Connect "sockA"; Connect "sockB"; Connect "sockC"] in
  stream no_fault 10 "sockA" (NewUserStart (JObj [("to", JArr []); ("sender", JNum 7)])) 3 w
  = Done tt (World (rooms w) (sids w) (<[limit_key "sockA" "newUserStart" := Window 1 (3 + 1000)]> ∅)
       (sent w ++ [Emission (dom (sids w) ∖ members (rooms w) "sockA") "newUserStart"
                     (JObj [("sender", JNum 7); ("timestamp", JNum 3)])])
       (logged w ++ [(LDebug, "New user start signal")])).
Proof.
  apply (newUserStart_forwarded 10 "sockA"
           (JObj [("to", JArr []); ("sender", JNum 7)]) (JArr []) (JNum 7) 3
           (run 10 start [Connect "sockA"; Connect "sockB"; Connect "sockC"])); reflexivity.
Defined.

(** An empty array as [to] reaches the whole namespace: the two other
    connected sockets, although they share no room with the caller. *)
Example newUserStart_to_everyone :
  let w := run 10 start [Connect "sockA"; Connect "sockB"; Connect "sockC";
                         Deliver "sockA"
                           (NewUserStart (JObj [("to", JArr []); ("sender", JStr "A")])) 3] in
  sent w = [Emission {[ "sockB"; "sockC" ]} "newUserStart"
              (JObj [("sender", JStr "A"); ("timestamp", JNum 3)])].
Proof. vm_compute. reflexivity. Qed.

(** X9. A 'chat' event that the rate limiter admits and [validateChatData]
    accepts is broadcast once, as [{sender, msg, timestamp}] with the
    sender and message of the payload, to the members of [data.room] that
    are not members of the caller's own room. The caller need not be a
    member of [data.room], and no room changes. *)
Theorem chat_broadcast (MAX_ROOM_SIZE : nat) (id : string) (data : jsval)
    (now : Z) (w : world) (m' : gmap string window) :
  isRateLimited (rateLimitMap w) id "chat" now = (false, m') ->
  validateChatData data = Ok true ->
  exists fs room sender msg,
    data = JObj fs /\ field "room" fs = JStr room /\
    field "sender" fs = JStr sender /\ field "msg" fs = JStr msg /\
    stream no_fault MAX_ROOM_SIZE id (Chat data) now w
    = Done tt (World (rooms w) (sids w) m'
         (sent w ++ [Emission (members (rooms w) room ∖ members (rooms w) id) "chat"
                       (JObj [("sender", JStr sender); ("msg", JStr msg);
                              ("timestamp", JNum now)])])
         (logged w ++ [(LDebug, "Chat message sent")])).
Proof. apply on_chat_accepted. Qed.

Lemma chat_broadcast_witness :
  let data := JObj [("room", JStr "r1"); ("sender", JStr "ann"); ("msg", JStr "hello")] in
  let w := run 10 start [Connect "s1"; Connect "s2"; Connect "outsider";
                         Deliver "s1" (subscribe_to "r1" "p1") 0;
                         Deliver "s2" (subscribe_to "r1" "p2") 0] in
  exists fs room sender msg,
    data = JObj fs /\ field "room" fs = JStr room /\
    field "sender" fs = JStr sender /\ field "msg" fs = JStr msg /\
    stream no_fault 10 "outsider" (Chat data) 9 w
    = Done tt (World (rooms w) (sids w)
         (<[limit_key "outsider" "chat" := Window 1 (9 + 1000)]> (rateLimitMap w))
         (sent w ++ [Emission (members (rooms w) room ∖ members (rooms w) "outsider") "chat"
                       (JObj [("sender", JStr sender); ("msg", JStr msg);
                              ("timestamp", JNum 9)])])
         (logged w ++ [(LDebug, "Chat message sent")])).
Proof.
  apply (chat_broadcast 10 "outsider"
           (JObj [("room", JStr "r1"); ("sender", JStr "ann"); ("msg", JStr "hello")]) 9
           (run 10 start [Connect "s1"; Connect "s2"; Connect "outsider";
                          Deliver "s1" (subscribe_to "r1" "p1") 0;
                          Deliver "s2" (subscribe_to "r1" "p2") 0])); reflexivity.
Defined.

(** ** Room size, joining and leaving *)

(** X10. As long as the logger works, [getRoomSize] never throws. It
    returns the number of members of the room, 0 for a room that does not
    exist, and leaves the state as it is; when the lookup in the adapter
    fails it logs one error and returns 0. *)
Theorem getRoomSize_never_throws (faulty : op -> bool) (room : jsval) (w : world) :
  faulty OpLog = false ->
  getRoomSize faulty room w
  = if faulty OpRooms
    then Done 0%nat (push_logged LError "Error getting room size:" w)
    else Done (match room with
               | JStr r => size (members (rooms w) r)
               | _ => 0%nat
               end) w.
Proof.
  intros Hlog. unfold_handler. destruct (faulty OpRooms).
  - rewrite Hlog. reflexivity.
  - destruct room; try reflexivity. by rewrite getRoomSize_members.
Qed.

Lemma getRoomSize_never_throws_witness :
  getRoomSize rooms_fail (JStr "r1") (World {[ "r1" := {[ "s1"; "s2" ]} ]} ∅ ∅ [] [])
  = Done 0%nat (push_logged LError "Error getting room size:"
                  (World {[ "r1" := {[ "s1"; "s2" ]} ]} ∅ ∅ [] [])).
Proof.
  apply (getRoomSize_never_throws rooms_fail (JStr "r1")
           (World {[ "r1" := {[ "s1"; "s2" ]} ]} ∅ ∅ [] [])).
  reflexivity.
Defined.

(** X11. The size check fails open. When the lookups in the adapter fail,
    [getRoomSize] answers 0, so with a positive limit an admitted, valid
    subscribe joins the target room and the participant room whatever their
    size; the later [rooms.has] then throws, and the caller, although joined,
    receives 'Internal server error' and no 'new user' is broadcast. *)
Theorem subscribe_joins_when_lookup_fails (MAX_ROOM_SIZE : nat) (id : string)
    (fs : list (string * jsval)) (r p : string) (now : Z) (w : world)
    (m' : gmap string window) :
  (0 < MAX_ROOM_SIZE)%nat ->
  isRateLimited (rateLimitMap w) id "subscribe" now = (false, m') ->
  validateRoomData (JObj fs) = Ok true ->
  field "room" fs = JStr r -> field "socketId" fs = JStr p ->
  stream rooms_fail MAX_ROOM_SIZE id (Subscribe (JObj fs)) now w
  = Done tt (World (add_member id p (add_member id r (rooms w)))
       (note_joined id [p] (note_joined id [r] (sids w))) m'
       (sent w ++ [Emission {[id]} "error" (message "Internal server error")])
       (logged w ++ [(LError, "Error getting room size:");
                     (LError, "Error getting room size:");
                     (LInfo, "User joined room");
                     (LError, "Error in subscribe handler:")])).
Proof.
  intros Hmax Hrl Hv Hr Hp. destruct w as [rs ss rl snt lg]. cbn [rateLimitMap] in Hrl.
  unfold_handler. cbn [rateLimitMap]. rewrite Hrl. cbn [rooms_fail negb].
  rewrite Hv. cbn -[Nat.leb]. rewrite Hr. cbn -[Nat.leb].
  destruct (Nat.leb_spec MAX_ROOM_SIZE 0) as [H|_]; [lia|].
  rewrite Hp. cbn.
  cbv [push_sent push_logged set_rooms set_sids set_rateLimitMap
       rooms sids rateLimitMap sent logged].
  rewrite <- !app_assoc. reflexivity.
Qed.

Lemma subscribe_joins_when_lookup_fails_witness :
  let w := World {[ "r1" := {[ "s1"; "s2" ]} ]} ∅ ∅ [] [] in
  stream rooms_fail 2 "s3" (subscribe_to "r1" "p3") 0 w
  = Done tt (World (add_member "s3" "p3" (add_member "s3" "r1" (rooms w)))
       (note_joined "s3" ["p3"] (note_joined "s3" ["r1"] (sids w)))
       (<[limit_key "s3" "subscribe" := Window 1 (0 + 1000)]> ∅)
       (sent w ++ [Emission {[ "s3" ]} "error" (message "Internal server error")])
       (logged w ++ [(LError, "Error getting room size:");
                     (LError, "Error getting room size:");
                     (LInfo, "User joined room");
                     (LError, "Error in subscribe handler:")])).
Proof.
  apply (subscribe_joins_when_lookup_fails 2 "s3"
           [("room", JStr "r1"); ("socketId", JStr "p3")] "r1" "p3" 0
           (World {[ "r1" := {[ "s1"; "s2" ]} ]} ∅ ∅ [] [])); try reflexivity. lia.
Defined.

(** X12. A subscribe that the rate limiter admits, the validation accepts
    and that finds fewer than [MAX_ROOM_SIZE] members in the target room
    makes the caller a member of the target room and of the room named by
    [socketId]; no other room changes. It sends one 'new user' message,
    carrying that [socketId], to the members the target room has after the
    joins that are not members of the caller's own room. For a caller that
    is in its own room these are the earlier members of the target room
    outside the caller's own room, so the first to enter a room notifies
    nobody. *)
Theorem subscribe_joins_and_notifies (MAX_ROOM_SIZE : nat) (id : string)
    (fs : list (string * jsval)) (r p : string) (now : Z) (w : world)
    (m' : gmap string window) :
  isRateLimited (rateLimitMap w) id "subscribe" now = (false, m') ->
  validateRoomData (JObj fs) = Ok true ->
  field "room" fs = JStr r -> field "socketId" fs = JStr p ->
  (size (members (rooms w) r) < MAX_ROOM_SIZE)%nat ->
  let w' := world_of (stream no_fault MAX_ROOM_SIZE id (Subscribe (JObj fs)) now w) in
  let rs' := add_member id p (add_member id r (rooms w)) in
  id ∈ members (rooms w') r /\ id ∈ members (rooms w') p /\
  (forall R, R <> r -> R <> p -> members (rooms w') R = members (rooms w) R) /\
  sent w' = (sent w ++ [Emission (members rs' r ∖ members rs' id) "new user"
                          (JObj [("socketId", JStr p); ("timestamp", JNum now)])])%list /\
  (in_own_room id w ->
   members rs' r ∖ members rs' id = members (rooms w) r ∖ members (rooms w) id).
Proof.
  intros Hrl Hv Hr Hp Hroom w' rs'. subst w'.
  destruct (validateRoomData_accepts _ Hv) as (fs' & [= <-] & Hok).
  rewrite (on_subscribe_joins _ _ _ r p _ _ m') by assumption.
  cbn [world_of rooms sent]. subst rs'. rewrite !members_add_member.
  rewrite (decide_True (P := p = p)) by reflexivity.
  rewrite (decide_True (P := r = r)) by reflexivity.
  split; [destruct (decide (p = r)); set_solver|].
  split; [set_solver|]. split; [|split].
  - intros R HRr HRp. rewrite !members_add_member.
    rewrite (decide_False (P := p = R)), (decide_False (P := r = R)) by congruence.
    reflexivity.
  - reflexivity.
  - unfold in_own_room. intros Hown.
    destruct (decide (p = r)), (decide (p = id)), (decide (r = id)); set_solver.
Qed.

Lemma subscribe_joins_and_notifies_witness :
  let w := run 2 start [Connect "s1"; Connect "s2"; Deliver "s1" (subscribe_to "r1" "p1") 0] in
  let w' := world_of (stream no_fault 2 "s2" (subscribe_to "r1" "p2") 0 w) in
  let rs' := add_member "s2" "p2" (add_member "s2" "r1" (rooms w)) in
  "s2" ∈ members (rooms w') "r1" /\ "s2" ∈ members (rooms w') "p2" /\
  (forall R, R <> "r1" -> R <> "p2" -> members (rooms w') R = members (rooms w) R) /\
  sent w' = (sent w ++ [Emission (members rs' "r1" ∖ members rs' "s2") "new user"
                          (JObj [("socketId", JStr "p2"); ("timestamp", JNum 0)])])%list /\
  (in_own_room "s2" w ->
   members rs' "r1" ∖ members rs' "s2" = members (rooms w) "r1" ∖ members (rooms w) "s2").
Proof.
  apply (subscribe_joins_and_notifies 2 "s2"
           [("room", JStr "r1"); ("socketId", JStr "p2")] "r1" "p2" 0
           (run 2 start [Connect "s1"; Connect "s2"; Deliver "s1" (subscribe_to "r1" "p1") 0])
           (<[limit_key "s2" "subscribe" := Window 1 (0 + 1000)]>
              (<[limit_key "s1" "subscribe" := Window 1 (0 + 1000)]> ∅))).
  - vm_compute. reflexivity.
  - reflexivity.
  - reflexivity.
  - reflexivity.
  - vm_compute. lia.
Defined.

(** The second to enter room "r1" notifies the first, and only it. *)
Example second_member_notifies_first :
  let w := run 2 start [Connect "s1"; Connect "s2";
                        Deliver "s1" (subscribe_to "r1" "p1") 0;
                        Deliver "s2" (subscribe_to "r1" "p2") 0] in
  sent w = [Emission ∅ "new user" (JObj [("socketId", JStr "p1"); ("timestamp", JNum 0)]);
            Emission {[ "s1" ]} "new user"
              (JObj [("socketId", JStr "p2"); ("timestamp", JNum 0)])].
Proof. vm_compute. reflexivity. Qed.

Lemma leave_recipients id r rs ss rl snt lg :
  to_recipients (World (remove_member id r rs) ss rl snt lg) id (JStr r)
  = if decide (r = id) then ∅ else (members rs r ∖ {[id]}) ∖ members rs id.
Proof.
  rewrite to_recipients_string. cbn [rooms]. rewrite !members_remove_member.
  rewrite (decide_True (P := r = r)) by reflexivity.
  destruct (decide (r = id)) as [->|Hid]; [apply difference_diag_L|reflexivity].
Qed.

(** X13. A 'leaveRoom' event naming a room [r] is not rate limited and not
    checked against the membership: it removes the caller from [r] if it was
    there and leaves every other room and the rate-limit windows as they
    were. It sends one stamped 'userLeft' message with the caller's socket
    identifier, even when the caller was never a member of [r]: to the
    remaining members of [r] that are not in the caller's own room, and to
    nobody when [r] is the caller's own room. *)
Theorem leaveRoom_leaves_and_notifies (MAX_ROOM_SIZE : nat) (id : string)
    (fs : list (string * jsval)) (r : string) (now : Z) (w : world) :
  field "room" fs = JStr r -> r <> "" ->
  stream no_fault MAX_ROOM_SIZE id (LeaveRoom (JObj fs)) now w
  = Done tt (World (remove_member id r (rooms w)) (note_left id r (sids w)) (rateLimitMap w)
       (sent w ++ [Emission (if decide (r = id) then ∅
                             else (members (rooms w) r ∖ {[id]}) ∖ members (rooms w) id)
                     "userLeft" (JObj [("socketId", JStr id); ("timestamp", JNum now)])])
       (logged w ++ [(LInfo, "User left room")])) /\
  (id ∉ members (remove_member id r (rooms w)) r) /\
  (forall R, R <> r -> members (remove_member id r (rooms w)) R = members (rooms w) R).
Proof.
  intros Hr Hne. split; [|split].
  - destruct w as [rs ss rl snt lg].
    unfold_handler. unfold has_room, exn_bind. simpl. rewrite Hr. simpl.
    apply String.eqb_neq in Hne. rewrite Hne. simpl.
    cbv [push_sent push_logged set_rooms set_sids rooms sids rateLimitMap sent logged].
    rewrite leave_recipients. reflexivity.
  - rewrite members_remove_member, decide_True by reflexivity. set_solver.
  - intros R HR. rewrite members_remove_member. by rewrite decide_False.
Qed.

Lemma leaveRoom_leaves_and_notifies_witness :
  let w := run 10 start [Connect "s1"; Connect "s2"; Connect "stranger";
                         Deliver "s1" (subscribe_to "r1" "p1") 0;
                         Deliver "s2" (subscribe_to "r1" "p2") 0] in
  stream no_fault 10 "stranger" (LeaveRoom (JObj [("room", JStr "r1")])) 4 w
  = Done tt (World (remove_member "stranger" "r1" (rooms w))
       (note_left "stranger" "r1" (sids w)) (rateLimitMap w)
       (sent w ++ [Emission (if decide ("r1" = "stranger") then ∅
                             else (members (rooms w) "r1" ∖ {[ "stranger" ]})
                                    ∖ members (rooms w) "stranger")
                     "userLeft" (JObj [("socketId", JStr "stranger"); ("timestamp", JNum 4)])])
       (logged w ++ [(LInfo, "User left room")])).
Proof.
  refine (proj1 (leaveRoom_leaves_and_notifies 10 "stranger" [("room", JStr "r1")] "r1" 4
                   (run 10 start [Connect "s1"; Connect "s2"; Connect "stranger";
                                  Deliver "s1" (subscribe_to "r1" "p1") 0;
                                  Deliver "s2" (subscribe_to "r1" "p2") 0]) _ _)).
  - reflexivity.
  - discriminate.
Defined.

(** X14. A 'leaveRoom' event whose payload is falsy, or whose [room] is
    missing or falsy, does nothing at all: no room changes, nothing is sent
    and nothing is logged, whatever calls would fail. *)
Theorem leaveRoom_without_room_ignored (faulty : op -> bool) (MAX_ROOM_SIZE : nat)
    (id : string) (data : jsval) (now : Z) (w : world) :
  truthy data = false \/ (exists room, data.["room"] = Ok room /\ truthy room = false) ->
  stream faulty MAX_ROOM_SIZE id (LeaveRoom data) now w = Done tt w.
Proof.
  intros H. unfold stream, on_leaveRoom, try_catch, M_bind, has_room.
  destruct H as [H|(room & Hroom & H)].
  - rewrite H. reflexivity.
  - destruct (truthy data); [|reflexivity].
    rewrite Hroom. simpl. rewrite H. reflexivity.
Qed.

Lemma leaveRoom_without_room_ignored_witness :
  stream broadcast_fails 10 "s1" (LeaveRoom (JObj [("room", JStr "")])) 4 start = Done tt start.
Proof.
  apply (leaveRoom_without_room_ignored broadcast_fails 10 "s1"
           (JObj [("room", JStr "")]) 4 start).
  right. exists (JStr ""). split; reflexivity.
Defined.

(** ** Disconnection *)

(** X15. When the transport runs the disconnect handler of [stream] the
    socket has left all its rooms, so [socket.rooms] is empty: the handler
    logs the disconnection and sweeps the rate-limit windows; it sends no
    'userLeft' message and changes no room. Only a fault of the logger makes
    it throw, and then nothing is swept. *)
Theorem disconnect_handler_after_leave (faulty : op -> bool) (MAX_ROOM_SIZE : nat)
    (id : string) (now : Z) (w : world) :
  elements (socket_rooms_of (sids (del_all id w)) id) = [] /\
  stream faulty MAX_ROOM_SIZE id (Disconnect []) now w
  = if faulty OpLog then Thrown "internal fault" w
    else Done tt (World (rooms w) (sids w) (sweep (rateLimitMap w) id) (sent w)
                    (logged w ++ [(LInfo, "Socket disconnected")])).
Proof.
  split; [apply socket_rooms_del_all|].
  unfold_handler. destruct (faulty OpLog); reflexivity.
Qed.


(** Two connections in room "r1"; "s1" disconnects: "s2" is told nothing,
    by neither listener. *)
Example disconnect_sends_no_userLeft :
  let w := run 10 start [Connect "s1"; Connect "s2";
                         Deliver "s1" (subscribe_to "r1" "p1") 0;
                         Deliver "s2" (subscribe_to "r1" "p2") 1] in
  let w' := step 10 w (Deliver "s1" (Disconnect []) 2) in
  sent w' = sent w /\ members (rooms w') "r1" = {[ "s2" ]} /\
  members (rooms w') "p1" = ∅ /\ members (rooms w') "s1" = ∅.
Proof. vm_compute. repeat split; reflexivity. Qed.

(** X17. Only 'subscribe' and 'leaveRoom' change the rooms: the handlers of
    'newUserStart', 'sdp', 'ice candidates', 'chat', 'disconnect' and 'error'
    leave every room as it was, whatever the payload and whatever calls
    fail. *)
Theorem relay_keeps_rooms (faulty : op -> bool) (MAX_ROOM_SIZE : nat) (id : string)
    (ev : inbound) (now : Z) (w : world) :
  match ev with
  | Subscribe _ | LeaveRoom _ => True
  | _ => rooms (world_of (stream faulty MAX_ROOM_SIZE id ev now w)) = rooms w
  end.
Proof.
  pose proof (stream_same_rooms faulty id MAX_ROOM_SIZE ev now) as H.
  destruct ev; try exact I; apply H.
Qed.

(** ** Configuration and log levels *)

Lemma number_or_nonzero parsed d : d <> 0 -> Config.number_or parsed d <> 0.
Proof.
  intros Hd. unfold Config.number_or. destruct parsed as [n|]; [|exact Hd].
  destruct (Z.eqb_spec n 0); assumption.
Qed.

Lemma string_or_nonempty x d : d <> "" -> Config.string_or x d <> "".
Proof.
  intros Hd. unfold Config.string_or. destruct x as [s|]; [|exact Hd].
  destruct (String.eqb_spec s ""); assumption.
Qed.

Lemma missing_load e : Config.missing (Config.load e) = [].
Proof.
  unfold Config.missing, Config.load. simpl.
  pose proof (number_or_nonzero (Config.env_PORT e) 3000) as Hp.
  pose proof (string_or_nonempty (Config.env_HOST e) "0.0.0.0") as Hh.
  destruct (Z.eqb_spec (Config.number_or (Config.env_PORT e) 3000) 0) as [E|_];
    [exfalso; apply Hp; [discriminate | exact E]|].
  destruct (String.eqb_spec (Config.string_or (Config.env_HOST e) "0.0.0.0") "") as [E|_];
    [exfalso; apply Hh; [discriminate | exact E]|].
  reflexivity.
Qed.

(** X18. Whatever the environment holds, the loaded configuration never
    fails the check of the required settings: the defaults make [PORT] and
    [HOST] truthy, so [validateConfig] either succeeds or reports the port,
    the rate limit or the room size, never a missing setting. *)
Theorem required_settings_never_missing (e : Config.env) :
  Config.missing (Config.load e) = [] /\
  (Config.validateConfig (Config.load e) = Ok true \/
   Config.validateConfig (Config.load e)
   = Raise ("Invalid port number: " +:+ digits (Config.PORT (Config.load e))
            +:+ ". Must be between 1 and 65535.") \/
   Config.validateConfig (Config.load e)
   = Raise "Rate limit max requests must be greater than 0" \/
   Config.validateConfig (Config.load e) = Raise "Max room size must be between 2 and 50").
Proof.
  split; [apply missing_load|].
  unfold Config.validateConfig. rewrite missing_load.
  destruct (_ || _); [auto|]. destruct (_ <? 1); [auto|]. destruct (_ || _); auto.
Qed.

Lemma number_or_within parsed d lo hi :
  d <> 0 -> lo <= d -> d <= hi -> 0 < lo ->
  (lo <= Config.number_or parsed d <= hi) <-> Config.unset_or_within parsed lo (Some hi).
Proof.
  intros Hd Hlo Hhi Hpos. unfold Config.number_or, Config.unset_or_within.
  destruct parsed as [n|]; [|split; [done | lia]].
  destruct (Z.eqb_spec n 0) as [->|Hn]; [split; [by left | lia]|].
  split; [by right | intros [?|?]; [contradiction | assumption]].
Qed.

Lemma number_or_least parsed d lo :
  d <> 0 -> lo <= d -> 0 < lo ->
  (lo <= Config.number_or parsed d) <-> Config.unset_or_within parsed lo None.
Proof.
  intros Hd Hlo Hpos. unfold Config.number_or, Config.unset_or_within.
  destruct parsed as [n|]; [|split; [done | lia]].
  destruct (Z.eqb_spec n 0) as [->|Hn]; [split; [by left | lia]|].
  split; [intros; right; by split | intros [?|[? _]]; [contradiction | assumption]].
Qed.

Lemma validateConfig_ok c :
  Config.validateConfig c = Ok true <->
  Config.missing c = [] /\ 1 <= Config.PORT c <= 65535 /\
  1 <= Config.RATE_LIMIT_MAX_REQUESTS c /\ 2 <= Config.MAX_ROOM_SIZE c <= 50.
Proof.
  unfold Config.validateConfig. destruct (Config.missing c) as [|k ks].
  - rewrite Z.gtb_ltb.
    destruct (Z.ltb_spec (Config.PORT c) 1), (Z.ltb_spec 65535 (Config.PORT c));
      simpl; try (split; [discriminate | lia]).
    destruct (Z.ltb_spec (Config.RATE_LIMIT_MAX_REQUESTS c) 1);
      try (split; [discriminate | lia]).
    rewrite Z.gtb_ltb.
    destruct (Z.ltb_spec (Config.MAX_ROOM_SIZE c) 2), (Z.ltb_spec 50 (Config.MAX_ROOM_SIZE c));
      simpl; try (split; [discriminate | lia]).
    split; [intros _; repeat split; lia | reflexivity].
  - split; [discriminate | intros [H _]; discriminate].
Qed.

(** X19. The loaded configuration passes [validateConfig] exactly when each
    of the three numeric settings is unset or unparsable, or 0, the default
    being taken in these cases, or lies within its bounds: 1 to 65535 for
    the port, at least 1 for the rate limit, 2 to 50 for the room size. *)
Theorem loaded_config_valid (e : Config.env) :
  Config.validateConfig (Config.load e) = Ok true <->
  Config.unset_or_within (Config.env_PORT e) 1 (Some 65535) /\
  Config.unset_or_within (Config.env_RATE_LIMIT_MAX_REQUESTS e) 1 None /\
  Config.unset_or_within (Config.env_MAX_ROOM_SIZE e) 2 (Some 50).
Proof.
  rewrite validateConfig_ok. unfold Config.load. simpl.
  rewrite <- (number_or_within (Config.env_PORT e) 3000 1 65535) by lia.
  rewrite <- (number_or_least (Config.env_RATE_LIMIT_MAX_REQUESTS e) 100 1) by lia.
  rewrite <- (number_or_within (Config.env_MAX_ROOM_SIZE e) 10 2 50) by lia.
  pose proof (missing_load e) as Hm. unfold Config.load in Hm. tauto.
Qed.

Lemma loaded_config_valid_witness :
  Config.validateConfig
    (Config.load (Config.Env (Some 8080) None None (Some 0) (Some "debug"))) = Ok true.
Proof.
  apply (proj2 (loaded_config_valid _)). simpl. repeat split; lia.
Defined.

(** X20. With a configuration that passed [validateConfig] the room limit is
    at least 2, so a subscribe that the rate limiter admits and the
    validation accepts is never refused as full by a room with at most one
    member: the caller joins it. *)
Theorem valid_config_admits_second_member (c : Config.config) (id : string)
    (fs : list (string * jsval)) (r p : string) (now : Z) (w : world)
    (m' : gmap string window) :
  Config.validateConfig c = Ok true ->
  isRateLimited (rateLimitMap w) id "subscribe" now = (false, m') ->
  validateRoomData (JObj fs) = Ok true ->
  field "room" fs = JStr r -> field "socketId" fs = JStr p ->
  (size (members (rooms w) r) <= 1)%nat ->
  rooms (world_of (stream no_fault (Z.to_nat (Config.MAX_ROOM_SIZE c)) id
                     (Subscribe (JObj fs)) now w))
  = add_member id p (add_member id r (rooms w)).
Proof.
  intros Hc Hrl Hv Hr Hp Hsize.
  apply validateConfig_ok in Hc as (_ & _ & _ & Hmax).
  destruct (validateRoomData_accepts _ Hv) as (fs' & [= <-] & Hok).
  rewrite (on_subscribe_joins _ _ _ r p _ _ m'); try assumption; [reflexivity | lia].
Qed.

Lemma valid_config_admits_second_member_witness :
  let w := World {[ "r1" := {[ "s1" ]} ]} ∅ ∅ [] [] in
  rooms (world_of (stream no_fault
                     (Z.to_nat (Config.MAX_ROOM_SIZE (Config.load (Config.Env None None None (Some 2) None))))
                     "s2" (subscribe_to "r1" "p2") 0 w))
  = add_member "s2" "p2" (add_member "s2" "r1" (rooms w)).
Proof.
  apply (valid_config_admits_second_member
           (Config.load (Config.Env None None None (Some 2) None)) "s2"
           [("room", JStr "r1"); ("socketId", JStr "p2")] "r1" "p2" 0
           (World {[ "r1" := {[ "s1" ]} ]} ∅ ∅ [] [])
           (<[limit_key "s2" "subscribe" := Window 1 (0 + 1000)]> ∅)); reflexivity.
Defined.

(** X21. Messages of level error and warn are written under every
    [LOG_LEVEL]; info messages are written under every [LOG_LEVEL] but
    "warn"; debug messages are written when [LOG_LEVEL] is "debug" or a name
    inherited from [Object.prototype]. In particular [LOG_LEVEL] "error",
    whose number 0 is falsy, falls back to the info threshold and does not
    silence warnings and info messages. *)
Theorem log_level_thresholds (inherited : string -> bool) (LOG_LEVEL : string) :
  Logger.writes inherited LOG_LEVEL LError = true /\
  Logger.writes inherited LOG_LEVEL LWarn = true /\
  Logger.writes inherited LOG_LEVEL LInfo = negb (String.eqb LOG_LEVEL "warn") /\
  Logger.writes inherited LOG_LEVEL LDebug
  = (String.eqb LOG_LEVEL "debug"
     || (negb (String.eqb LOG_LEVEL "error") && negb (String.eqb LOG_LEVEL "warn")
         && negb (String.eqb LOG_LEVEL "info") && inherited LOG_LEVEL)) /\
  Logger.writes inherited "error" LInfo = true.
Proof.
  unfold Logger.writes, Logger.CURRENT_LOG_LEVEL, Logger.LOG_LEVELS.
  split; [|split; [|split; [|split]]]; try reflexivity;
    destruct (String.eqb_spec LOG_LEVEL "error") as [->|?]; try reflexivity;
    destruct (String.eqb_spec LOG_LEVEL "warn") as [->|?]; try reflexivity;
    destruct (String.eqb_spec LOG_LEVEL "info") as [->|?]; try reflexivity;
    destruct (String.eqb_spec LOG_LEVEL "debug") as [->|?]; try reflexivity;
    destruct (inherited LOG_LEVEL); reflexivity.
Qed.
